(** * IntelliRoad: the integrity pipeline

    A shallow embedding of the three pieces of the repository that carry
    invariants:

    - [AnchorRegistry] -- the Solidity contract of that name (a mapping
      [bytes32 => bool], one state-changing function, one event);
    - [Backend] -- the Express server: the zod schemas, the server-side hash
      re-derivation of [POST /api/observations] and the listing of
      [GET /api/observations] over the [observations] table of [db.ts]
      ([Db]);
    - [Frontend] -- [App.tsx]: the client-side canonical form, [sha256Hex]
      and the edits of the feature list.

    JavaScript values are embedded as a tree type with ordered property
    lists, so that the difference between an absent property and a property
    holding [undefined], and the order in which [JSON.stringify] walks the
    keys, are both visible. *)

From Stdlib Require Import ZArith NArith QArith Bool List String Ascii Lia.
From Stdlib.Strings Require Import Byte.
From Stdlib Require Import Hexadecimal HexadecimalString Decimal DecimalString.
From stdpp Require Import base option list sorting gmap strings.

Local Open Scope string_scope.
Local Open Scope list_scope.

(** ** The contract [AnchorRegistry] *)

Module AnchorRegistry.

(** [bytes32], [address] and [uint256] values are read as the unsigned
    numbers their bytes encode.  The contract never does arithmetic on
    them: it compares a hash with [bytes32(0)] and uses it as a key. *)
Definition bytes32 := N.
Definition address := N.
Definition uint256 := N.

(** [event Anchored(bytes32 indexed hash, address indexed submitter, uint256 timestamp)] *)
Inductive Event :=
| Anchored (hash : bytes32) (submitter : address) (timestamp : uint256).

(** The contract's storage ([mapping(bytes32 => bool) public isAnchored])
    together with the log of the events it has emitted. *)
Record World := mkWorld {
  isAnchored_slot : gmap N bool;
  logs : list Event
}.

(** The part of the transaction environment the contract reads. *)
Record Env := mkEnv {
  msg_sender : address;
  block_timestamp : uint256
}.

(** Contract code either reverts with a reason string or returns a value
    and the world it has written. *)
Definition exec (A : Type) : Type := World -> string + (A * World).

#[local] Instance exec_ret : MRet exec := fun A a w => inr (a, w).

#[local] Instance exec_bind : MBind exec := fun A B k c w =>
  match c w with
  | inl reason => inl reason
  | inr (a, w') => k a w'
  end.

(** [require(cond, reason)] *)
Definition require (cond : bool) (reason : string) : exec unit :=
  fun w => if cond then inr (tt, w) else inl reason.

(** Reading a mapping slot: a key never written reads as [false]. *)
Definition sload (hash : bytes32) : exec bool :=
  fun w => inr (default false (isAnchored_slot w !! hash), w).

(** [isAnchored[hash] = v] *)
Definition sstore (hash : bytes32) (v : bool) : exec unit :=
  fun w => inr (tt, mkWorld (<[hash := v]> (isAnchored_slot w)) (logs w)).

(** [emit e] appends to the log. *)
Definition emit (e : Event) : exec unit :=
  fun w => inr (tt, mkWorld (isAnchored_slot w) (logs w ++ [e])).

(** The public getter that Solidity generates for the mapping. *)
Definition isAnchored (hash : bytes32) : exec bool := sload hash.

(** [function anchor(bytes32 hash) external] *)
Definition anchor (env : Env) (hash : bytes32) : exec unit :=
  require (negb (hash =? 0)%N) "EMPTY_HASH";;
  already ← sload hash;
  require (negb already) "ALREADY_ANCHORED";;
  sstore hash true;;
  emit (Anchored hash (msg_sender env) (block_timestamp env)).

(** What a caller observes of a call. *)
Inductive Receipt (A : Type) :=
| Success (result : A)
| Reverted (reason : string).
Arguments Success {A} result.
Arguments Reverted {A} reason.

(** A message call is atomic: when the code reverts, every write and every
    log entry of the call is discarded and the world is the one before. *)
Definition transact {A} (c : exec A) (w : World) : World * Receipt A :=
  match c w with
  | inl reason => (w, Reverted reason)
  | inr (a, w') => (w', Success a)
  end.

(** The externally callable surface (the ABI of [abi.ts]). *)
Inductive Call :=
| call_anchor (env : Env) (hash : bytes32)
| call_isAnchored (hash : bytes32).

(** The observable result of a call, with the return value erased to a
    common shape. *)
Inductive Observed :=
| Returned_unit
| Returned_bool (b : bool)
| Failed (reason : string).

Definition step (w : World) (c : Call) : World * Observed :=
  match c with
  | call_anchor env hash =>
      match transact (anchor env hash) w with
      | (w', Success _) => (w', Returned_unit)
      | (w', Reverted r) => (w', Failed r)
      end
  | call_isAnchored hash =>
      match transact (isAnchored hash) w with
      | (w', Success b) => (w', Returned_bool b)
      | (w', Reverted r) => (w', Failed r)
      end
  end.

(** Running a sequence of calls, in the order the ledger serialises them. *)
Fixpoint run (cs : list Call) (w : World) : World :=
  match cs with
  | [] => w
  | c :: cs' => run cs' (fst (step w c))
  end.

(** The history of a run: every call with what its caller observed. *)
Fixpoint history (cs : list Call) (w : World) : list (Call * Observed) :=
  match cs with
  | [] => []
  | c :: cs' => (c, snd (step w c)) :: history cs' (fst (step w c))
  end.

(** The world right after deployment. *)
Definition genesis : World := mkWorld ∅ [].

(** The view a caller has of the flag of [hash] in world [w]. *)
Definition anchored (w : World) (hash : bytes32) : bool :=
  default false (isAnchored_slot w !! hash).

(** Was there a successful [anchor(hash)] among the calls of a history? *)
Definition is_successful_anchor (hash : bytes32) (e : Call * Observed) : bool :=
  match e with
  | (call_anchor _ h, Returned_unit) => (h =? hash)%N
  | _ => false
  end.

End AnchorRegistry.


(** ** JavaScript values and the built-ins the code calls *)

Module Js.

(** A JavaScript number.  The code never does arithmetic on a number: it
    only compares ([min(0)], [max(1)], [Math.min]) and prints, so a finite
    value is kept as the rational it denotes.  (Negative zero, which prints
    and compares as zero, is not told apart.) *)
Inductive number :=
| NaN
| Infinity (negative : bool)
| Finite (q : Q).

(** Values.  An object is the list of its own enumerable string-keyed
    properties in creation order, which is the order [JSON.stringify] and
    [for ... in] walk them; a property list holds no key twice.  (Keys that
    read as array indices, which JavaScript walks first, do not occur in the
    objects of this program.) *)
Unset Elimination Schemes.
Inductive value :=
| Undefined
| Null
| Bool (b : bool)
| Num (n : number)
| Str (s : string)
| Arr (items : list value)
| Obj (props : list (string * value)).
Set Elimination Schemes.

(** What the embedding takes from the platform without modelling it: the
    decimal printing and reading of numbers (the floating-point part), the
    hash primitive and the JSON reader. *)
Record Runtime := mkRuntime {
  (** [Number::toString(x)] of a finite [x], as [JSON.stringify] prints it *)
  Number_toString : Q -> string;
  (** [Number(s)] of a string *)
  StringToNumber : string -> number;
  (** SHA-256 of the UTF-8 encoding of a string (WebCrypto's
      [digest('SHA-256', TextEncoder.encode(s))] and Node's
      [createHash('sha256').update(s)] alike) *)
  SHA256 : string -> list byte;
  (** [JSON.parse(s)]; [None] when it throws a [SyntaxError] *)
  JSON_parse : string -> option value;
  (** the messages of the issues zod reports for a value a schema rejects,
      already split the way [flatten()] returns them *)
  zod_formErrors : value -> list string;
  zod_fieldErrors : value -> list (string * list string)
}.

(** *** Strings *)

(** A string is held as the bytes of its UTF-8 encoding, the form in which
    it arrives in a request body, is hashed and is kept in a TEXT column.  A
    JavaScript string may also hold a surrogate (a code unit from U+D800 to
    U+DFFF) that is not one of a pair, which [JSON.parse] yields for an escape
    such as [\ud800]; UTF-8 has no encoding for it, and it is held as the
    three bytes its code point would take: ED, then A0 to BF, then 80 to
    BF. *)

Definition dquote : ascii := ascii_of_nat 34.
Definition backslash : ascii := ascii_of_nat 92.

(** Do the three bytes hold a lone surrogate? *)
Definition lone_surrogate (c1 c2 c3 : ascii) : bool :=
  ((N_of_ascii c1 =? 237) && (160 <=? N_of_ascii c2) && (N_of_ascii c2 <=? 191)
   && (128 <=? N_of_ascii c3) && (N_of_ascii c3 <=? 191))%N.

(** The code point of the surrogate held as ED, [c2], [c3]. *)
Definition surrogate_code_point (c2 c3 : ascii) : N :=
  (53248 + (N_of_ascii c2 mod 64) * 64 + N_of_ascii c3 mod 64)%N.

(** One lowercase hexadecimal digit. *)
Definition hex_digit (n : N) : ascii :=
  if (n <? 10)%N then ascii_of_N (48 + n) else ascii_of_N (87 + n).

(** The escape [\u00XX] of a control character. *)
Definition unicode_escape (c : ascii) : string :=
  String backslash
    (String "u" (String "0" (String "0"
       (String (hex_digit (N_of_ascii c / 16))
          (String (hex_digit (N_of_ascii c mod 16)) EmptyString))))).

Definition escaped (c : ascii) : string := String backslash (String c EmptyString).

(** [UnicodeEscape] of a code unit: [\u] and four lowercase hexadecimal
    digits. *)
Definition UnicodeEscape (n : N) : string :=
  String backslash
    (String "u" (String (hex_digit (n / 4096))
       (String (hex_digit (n / 256 mod 16))
          (String (hex_digit (n / 16 mod 16))
             (String (hex_digit (n mod 16)) EmptyString))))).

(** [QuoteJSONString], character by character: a lone surrogate is written
    as its escape ([quote_chars] below), any other character byte by byte. *)
Definition quote_char (c : ascii) : string :=
  let n := N_of_ascii c in
  if (n =? 34)%N then escaped dquote
  else if (n =? 92)%N then escaped backslash
  else if (n =? 8)%N then escaped "b"
  else if (n =? 12)%N then escaped "f"
  else if (n =? 10)%N then escaped "n"
  else if (n =? 13)%N then escaped "r"
  else if (n =? 9)%N then escaped "t"
  else if (n <? 32)%N then unicode_escape c
  else String c EmptyString.

Fixpoint quote_chars (s : string) : string :=
  match s with
  | EmptyString => EmptyString
  | String c rest =>
      match rest with
      | String c2 (String c3 rest') =>
          if lone_surrogate c c2 c3
          then UnicodeEscape (surrogate_code_point c2 c3) +:+ quote_chars rest'
          else quote_char c +:+ quote_chars rest
      | _ => quote_char c +:+ quote_chars rest
      end
  end.

Definition QuoteJSONString (s : string) : string :=
  String dquote (quote_chars s +:+ String dquote EmptyString).

(** [String.prototype.toLowerCase] on the characters the code applies it to
    (the server lowers the two digest strings, which are ASCII). *)
Definition lower_char (c : ascii) : ascii :=
  let n := N_of_ascii c in
  if ((65 <=? n) && (n <=? 90))%N then ascii_of_N (n + 32) else c.

Fixpoint toLowerCase (s : string) : string :=
  match s with
  | EmptyString => EmptyString
  | String c rest => String (lower_char c) (toLowerCase rest)
  end.

(** U+FFFD, the replacement character, in UTF-8. *)
Definition replacement_character : string :=
  String (ascii_of_nat 239) (String (ascii_of_nat 191) (String (ascii_of_nat 189) EmptyString)).

(** [String.prototype.toWellFormed]: the string with U+FFFD in the place of
    every lone surrogate.  It is what encoding a string as UTF-8 and decoding
    it again yields. *)
Fixpoint toWellFormed (s : string) : string :=
  match s with
  | EmptyString => EmptyString
  | String c rest =>
      match rest with
      | String c2 (String c3 rest') =>
          if lone_surrogate c c2 c3
          then replacement_character +:+ toWellFormed rest'
          else String c (toWellFormed rest)
      | _ => String c (toWellFormed rest)
      end
  end.

(** [s.padStart(targetLength, c)] with a one-character filler. *)
Fixpoint fill (n : nat) (c : ascii) (s : string) : string :=
  match n with
  | O => s
  | S n' => String c (fill n' c s)
  end.

Definition padStart (targetLength : nat) (c : ascii) (s : string) : string :=
  fill (targetLength - String.length s) c s.

(** [n.toString(16)] of a non-negative integer. *)
Definition toString16 (n : N) : string :=
  HexadecimalString.NilZero.string_of_uint (N.to_hex_uint n).

(** *** [JSON.stringify] *)

(** [SerializeJSONArray]: an element that serialises to [undefined] is
    written as [null]. *)
Definition SerializeJSONArray (ser : value -> option string) (items : list value) : string :=
  "[" +:+ String.concat "," (map (fun v => default "null" (ser v)) items) +:+ "]".

(** [SerializeJSONObject]: a property whose value serialises to [undefined]
    is left out, key and all. *)
Definition SerializeJSONObject (ser : value -> option string)
    (props : list (string * value)) : string :=
  "{" +:+ String.concat ","
            (omap (fun kv => match kv with
                             | (k, v) => (fun s => QuoteJSONString k +:+ ":" +:+ s) <$> ser v
                             end) props)
      +:+ "}".

(** [SerializeJSONProperty] without replacer or indentation; [None] is the
    result [undefined]. *)
Fixpoint SerializeJSONProperty (rt : Runtime) (v : value) : option string :=
  match v with
  | Undefined => None
  | Null => Some "null"
  | Bool true => Some "true"
  | Bool false => Some "false"
  | Num (Finite q) => Some (Number_toString rt q)
  | Num _ => Some "null"
  | Str s => Some (QuoteJSONString s)
  | Arr items => Some (SerializeJSONArray (SerializeJSONProperty rt) items)
  | Obj props => Some (SerializeJSONObject (SerializeJSONProperty rt) props)
  end.

(** [JSON.stringify(v)] *)
Definition JSON_stringify (rt : Runtime) (v : value) : option string :=
  SerializeJSONProperty rt v.

(** [JSON.stringify] of an object literal, whose result is always a string. *)
Definition stringify_object (rt : Runtime) (props : list (string * value)) : string :=
  SerializeJSONObject (SerializeJSONProperty rt) props.

(** [JSON.stringify] of an array, whose result is always a string. *)
Definition stringify_array (rt : Runtime) (items : list value) : string :=
  SerializeJSONArray (SerializeJSONProperty rt) items.

(** [o[key]]: the value of a property, [undefined] when the object has no
    such property. *)
Fixpoint get (key : string) (props : list (string * value)) : value :=
  match props with
  | [] => Undefined
  | (k, v) :: rest => if String.eqb k key then v else get key rest
  end.

(** [Math.min(a, b)] *)
Definition Math_min (a b : number) : number :=
  match a, b with
  | NaN, _ | _, NaN => NaN
  | Infinity true, _ | _, Infinity true => Infinity true
  | Infinity false, y => y
  | x, Infinity false => x
  | Finite p, Finite q => if Qle_bool p q then Finite p else Finite q
  end.

(** [a < b] *)
Definition lt (a b : number) : bool :=
  match a, b with
  | NaN, _ | _, NaN => false
  | Infinity true, Infinity true => false
  | Infinity true, _ => true
  | _, Infinity true => false
  | Infinity false, _ => false
  | Finite _, Infinity false => true
  | Finite p, Finite q => negb (Qle_bool q p)
  end.

(** What [JSON.parse] reads back from the text [JSON.stringify] wrote for a
    value, which is how a value crosses from the client to [express.json()]:
    a property holding [undefined] is gone, an [undefined] array element and
    a number that is not finite have become [null]; finite numbers and
    strings read back as they were. *)
Fixpoint json_image (v : value) : value :=
  match v with
  | Undefined => Undefined
  | Null => Null
  | Bool b => Bool b
  | Num (Finite q) => Num (Finite q)
  | Num _ => Null
  | Str s => Str s
  | Arr items =>
      Arr (map (fun item => match item with
                            | Undefined => Null
                            | _ => json_image item
                            end) items)
  | Obj props =>
      Obj (omap (fun kv => match kv with
                           | (_, Undefined) => None
                           | (k, v) => Some (k, json_image v)
                           end) props)
  end.

(** The keys of an object, in order. *)
Definition keys (v : value) : list string :=
  match v with
  | Obj props => map fst props
  | _ => []
  end.

(** The properties a spread [{ ...v }] copies: those of an object, none of
    [undefined], [null], a number or a boolean.  (Strings and arrays, which
    spread their indices, are never spread by this program.) *)
Definition props_of (v : value) : list (string * value) :=
  match v with
  | Obj props => props
  | _ => []
  end.

(** Is [ks] what is left of [shape] after dropping some of its entries? *)
Fixpoint subsequence (ks shape : list string) : bool :=
  match ks, shape with
  | [], _ => true
  | _ :: _, [] => false
  | k :: ks', s :: shape' =>
      if String.eqb k s then subsequence ks' shape' else subsequence ks shape'
  end.

End Js.


(** ** The [observations] table of [db.ts] *)

Module Db.

(** [export type Observation]: one row of the table. *)
Record Observation := mkObservation {
  id : string;
  created_at : string;
  lat : Js.number;
  lng : Js.number;
  timestamp : string;
  features_json : string;
  hash_hex : string
}.

(** The table: its rows in the order they were inserted. *)
Definition table := list Observation.

(** What a string bound to a TEXT column reads back as.  better-sqlite3
    hands SQLite the UTF-8 encoding of the string, in which a lone surrogate
    has become U+FFFD. *)
Definition text (s : string) : string := Js.toWellFormed s.

(** [INSERT INTO observations ... VALUES ...].  [id] is the primary key: a
    row whose id is already there makes the statement throw ([None]) and
    leaves the table as it was. *)
Definition insert (row : Observation) (t : table) : option table :=
  if existsb (fun r => String.eqb (id r) (id row)) t then None
  else Some (t ++ [row]).

(** [ORDER BY created_at DESC].  TEXT values compare byte by byte, which is
    [String.leb].  SQL leaves the order of rows with equal keys open; the
    model lists the later insertion first, as a backwards scan of
    [observations_created_at_idx] does. *)
Fixpoint place (r : Observation) (sorted : list Observation) : list Observation :=
  match sorted with
  | [] => [r]
  | x :: rest =>
      if String.leb (created_at r) (created_at x) then x :: place r rest
      else r :: x :: rest
  end.

Fixpoint order_by_created_at_desc (t : table) : list Observation :=
  match t with
  | [] => []
  | r :: rest => place r (order_by_created_at_desc rest)
  end.

(** The integer a bound number stands for in [LIMIT ?].  better-sqlite3
    binds a number as a REAL, and SQLite takes a REAL for an integer when it
    has no fraction and lies strictly between the smallest and the largest
    integer of 64 bits; any other value (a fraction, an infinity, [NaN],
    which binds as NULL, and [-2^63] itself) makes it raise "datatype
    mismatch". *)
Definition as_integer (n : Js.number) : option Z :=
  match n with
  | Js.Finite q =>
      let k := (Qnum q / Z.pos (Qden q))%Z in
      if ((Qnum q mod Z.pos (Qden q) =? 0) && (- 2 ^ 63 <? k) && (k <? 2 ^ 63))%Z
      then Some k else None
  | _ => None
  end.

(** [LIMIT k]: the first [k] rows; a negative [k] means no upper bound. *)
Definition limit {A} (k : Z) (rows : list A) : list A :=
  if (k <? 0)%Z then rows else take (Z.to_nat k) rows.

(** [SELECT ... FROM observations ORDER BY created_at DESC LIMIT ?] run with
    [.all(n)]; [None] when the statement throws. *)
Definition select_recent (n : Js.number) (t : table) : option (list Observation) :=
  k ← as_integer n; Some (limit k (order_by_created_at_desc t)).

(** [a] was not created before [b], going by their [created_at] texts. *)
Definition not_older (a b : Observation) : Prop :=
  String.leb (created_at b) (created_at a) = true.

End Db.


(** ** The backend *)

Module Backend.

(** What [FeatureSchema] yields. *)
Record Feature := mkFeature {
  type : string;
  confidence : option Js.number;
  bbox : option (Js.number * Js.number * Js.number * Js.number)
}.

(** What [ObservationSchema] yields ([parsed.data]). *)
Record Observation := mkObservation {
  lat : Js.number;
  lng : Js.number;
  timestamp : string;
  features : list Feature;
  hashHex : string
}.

(** *** zod *)

(** [z.string()] *)
Definition z_string (v : Js.value) : option string :=
  match v with
  | Js.Str s => Some s
  | _ => None
  end.

(** [z.number()]: a value of type number other than [NaN].  (An infinity,
    which [JSON.parse] yields for a literal beyond the range of a double, is
    let through here; [min] and [max] below still turn it down.) *)
Definition z_number (v : Js.value) : option Js.number :=
  match v with
  | Js.Num Js.NaN => None
  | Js.Num n => Some n
  | _ => None
  end.

(** [.min(lo)] and [.max(hi)] on a number schema. *)
Definition z_min (lo : Js.number) (p : Js.value -> option Js.number) (v : Js.value)
    : option Js.number :=
  n ← p v; if Js.lt n lo then None else Some n.

Definition z_max (hi : Js.number) (p : Js.value -> option Js.number) (v : Js.value)
    : option Js.number :=
  n ← p v; if Js.lt hi n then None else Some n.

(** [.optional()]: [undefined] passes as it is. *)
Definition z_optional {A} (p : Js.value -> option A) (v : Js.value) : option (option A) :=
  match v with
  | Js.Undefined => Some None
  | _ => Some <$> p v
  end.

(** [.default(d)]: [undefined] is replaced by [d]. *)
Definition z_default {A} (d : A) (p : Js.value -> option A) (v : Js.value) : option A :=
  match v with
  | Js.Undefined => Some d
  | _ => p v
  end.

(** [z.array(p)] *)
Definition z_array {A} (p : Js.value -> option A) (v : Js.value) : option (list A) :=
  match v with
  | Js.Arr items => mapM p items
  | _ => None
  end.

(** [z.tuple([p, p, p, p])]: an array of exactly four items. *)
Definition z_tuple4 {A} (p : Js.value -> option A) (v : Js.value) : option (A * A * A * A) :=
  match v with
  | Js.Arr [a; b; c; d] =>
      a' ← p a; b' ← p b; c' ← p c; d' ← p d; Some (a', b', c', d')
  | _ => None
  end.

(** [.regex(re)] on a string schema. *)
Definition z_regex (re : string -> bool) (v : Js.value) : option string :=
  s ← z_string v; if re s then Some s else None.

Definition zero : Js.number := Js.Finite 0.
Definition one : Js.number := Js.Finite 1.

(** [FeatureSchema].  [z.object] accepts an object that is neither [null]
    nor an array, reads each key of its shape with [data[key]] and builds
    its result from the shape alone: keys the shape does not name are
    dropped, and the result lists the shape's keys in the shape's order. *)
Definition FeatureSchema (v : Js.value) : option Feature :=
  match v with
  | Js.Obj props =>
      t ← z_string (Js.get "type" props);
      c ← z_optional (z_max one (z_min zero z_number)) (Js.get "confidence" props);
      b ← z_optional (z_tuple4 z_number) (Js.get "bbox" props);
      Some (mkFeature t c b)
  | _ => None
  end.

Definition is_hex_char (c : ascii) : bool :=
  let n := N_of_ascii c in
  ((48 <=? n) && (n <=? 57) || (97 <=? n) && (n <=? 102) || (65 <=? n) && (n <=? 70))%N.

(** [/^0x[0-9a-fA-F]{64}$/] *)
Definition hashHex_regex (s : string) : bool :=
  match s with
  | String "0" (String "x" digits) =>
      (String.length digits =? 64)%nat && forallb is_hex_char (list_ascii_of_string digits)
  | _ => false
  end.

(** [ObservationSchema.safeParse(body)]; [None] stands for
    [{ success: false, error }]. *)
Definition ObservationSchema (v : Js.value) : option Observation :=
  match v with
  | Js.Obj props =>
      la ← z_number (Js.get "lat" props);
      ln ← z_number (Js.get "lng" props);
      ts ← z_string (Js.get "timestamp" props);
      fs ← z_default [] (z_array FeatureSchema) (Js.get "features" props);
      h ← z_regex hashHex_regex (Js.get "hashHex" props);
      Some (mkObservation la ln ts fs h)
  | _ => None
  end.

(** [parsed.error.flatten()]: an object of two members. *)
Definition flatten (rt : Js.Runtime) (rejected : Js.value) : Js.value :=
  Js.Obj [("formErrors", Js.Arr (map Js.Str (Js.zod_formErrors rt rejected)));
          ("fieldErrors",
           Js.Obj (map (fun e => (fst e, Js.Arr (map Js.Str (snd e))))
                       (Js.zod_fieldErrors rt rejected)))].

(** The object a parsed feature is at run time. *)
Definition number_tuple4 (t : Js.number * Js.number * Js.number * Js.number) : Js.value :=
  match t with
  | (a, b, c, d) => Js.Arr [Js.Num a; Js.Num b; Js.Num c; Js.Num d]
  end.

Definition feature_object (f : Feature) : Js.value :=
  Js.Obj ([("type", Js.Str (type f))]
          ++ match confidence f with
             | Some c => [("confidence", Js.Num c)]
             | None => []
             end
          ++ match bbox f with
             | Some b => [("bbox", number_tuple4 b)]
             | None => []
             end).

(** *** Hashing *)

(** Node's ['hex'] encoding of a buffer: two lowercase digits a byte. *)
Definition hex_of_byte (b : byte) : string :=
  String (Js.hex_digit (Byte.to_N b / 16))
    (String (Js.hex_digit (Byte.to_N b mod 16)) EmptyString).

Definition digest_hex (bs : list byte) : string :=
  String.concat EmptyString (map hex_of_byte bs).

(** [function sha256Hex(input: string)] *)
Definition sha256Hex (rt : Js.Runtime) (input : string) : string :=
  "0x" +:+ digest_hex (Js.SHA256 rt input).

(** [const canonical = JSON.stringify({ lat, lng, timestamp, features })]
    over the fields of [parsed.data]. *)
Definition canonical (rt : Js.Runtime) (d : Observation) : string :=
  Js.stringify_object rt
    [("lat", Js.Num (lat d)); ("lng", Js.Num (lng d));
     ("timestamp", Js.Str (timestamp d));
     ("features", Js.Arr (map feature_object (features d)))].

(** *** The two routes *)

(** What the client receives: a JSON body sent with [res.json], or the
    answer Express gives when the handler throws. *)
Inductive Response :=
| json (status : Z) (body : Js.value)
| uncaught_exception.

(** What a request reads from its surroundings: the results of
    [crypto.randomUUID()] and of [new Date().toISOString()]. *)
Record Clock := mkClock {
  randomUUID : string;
  now_ISO : string
}.

(** The result of handling one [POST]: the table afterwards, the response,
    and the canonical forms the handler has built and passed to
    [sha256Hex]. *)
Record Handled := mkHandled {
  db_after : Db.table;
  response : Response;
  hashed : list string
}.

Definition hash_mismatch_message : string :=
  "Hash mismatch (server recomputed a different value).".

(** [app.post('/api/observations', ...)].  Of the five strings the INSERT
    binds, the timestamp alone is the client's to choose freely, and it is
    stored as [Db.text] of itself; the other four hold no lone surrogate and
    are stored as they are: the id and the creation time are ASCII, the
    features text is written by [JSON.stringify], which escapes a lone
    surrogate, and the digest has passed the schema's pattern. *)
Definition post_observations (rt : Js.Runtime) (clock : Clock) (req_body : Js.value)
    (db : Db.table) : Handled :=
  match ObservationSchema req_body with
  | None =>
      mkHandled db
        (json 400 (Js.Obj [("ok", Js.Bool false); ("error", flatten rt req_body)]))
        []
  | Some data =>
      let canonical := canonical rt data in
      let expected := sha256Hex rt canonical in
      if negb (String.eqb (Js.toLowerCase expected) (Js.toLowerCase (hashHex data)))
      then
        mkHandled db
          (json 400 (Js.Obj [("ok", Js.Bool false);
                             ("error", Js.Str hash_mismatch_message)]))
          [canonical]
      else
        let id := randomUUID clock in
        let createdAt := now_ISO clock in
        let row :=
          Db.mkObservation id createdAt (lat data) (lng data)
            (Db.text (timestamp data))
            (Js.stringify_array rt (map feature_object (features data)))
            (hashHex data) in
        match Db.insert row db with
        | None => mkHandled db uncaught_exception [canonical]
        | Some db' =>
            mkHandled db'
              (json 200 (Js.Obj [("ok", Js.Bool true); ("id", Js.Str id);
                                 ("createdAt", Js.Str createdAt);
                                 ("hashHex", Js.Str (hashHex data))]))
              [canonical]
        end
  end.

(** [Number(req.query.limit || 50)]: the query value is a string or absent;
    the empty string is falsy. *)
Definition requested_limit (rt : Js.Runtime) (query_limit : option string) : Js.number :=
  match query_limit with
  | None => Js.Finite 50
  | Some s => if String.eqb s EmptyString then Js.Finite 50 else Js.StringToNumber rt s
  end.

(** The object a row is listed as. *)
Definition listed (features : Js.value) (r : Db.Observation) : Js.value :=
  Js.Obj [("id", Js.Str (Db.id r)); ("createdAt", Js.Str (Db.created_at r));
          ("lat", Js.Num (Db.lat r)); ("lng", Js.Num (Db.lng r));
          ("timestamp", Js.Str (Db.timestamp r));
          ("features", features);
          ("hashHex", Js.Str (Db.hash_hex r))].

(** [app.get('/api/observations', ...)] *)
Definition get_observations (rt : Js.Runtime) (query_limit : option string)
    (db : Db.table) : Response :=
  let limit := Js.Math_min (requested_limit rt query_limit) (Js.Finite 200) in
  match Db.select_recent limit db with
  | None => uncaught_exception
  | Some rows =>
      match mapM (fun r => fs ← Js.JSON_parse rt (Db.features_json r);
                           Some (listed fs r)) rows with
      | None => uncaught_exception
      | Some out =>
          json 200 (Js.Obj [("ok", Js.Bool true); ("observations", Js.Arr out)])
      end
  end.

(** The observations of a listing response. *)
Definition observations_of (r : Response) : option (list Js.value) :=
  match r with
  | json _ (Js.Obj props) =>
      match Js.get "observations" props with
      | Js.Arr out => Some out
      | _ => None
      end
  | _ => None
  end.

(** The [createdAt] member of a listed observation. *)
Definition createdAt_of (o : Js.value) : string :=
  match o with
  | Js.Obj props =>
      match Js.get "createdAt" props with
      | Js.Str s => s
      | _ => EmptyString
      end
  | _ => EmptyString
  end.

End Backend.



(** ** The frontend, [App.tsx] *)

Module Frontend.

(** [const canonical = useMemo(() => JSON.stringify({ lat, lng, timestamp,
    features }), ...)].  A [Feature] is an object at run time; its type
    [{ type: string; confidence?: number; bbox?: [...] }] does not say in
    which order the object holds its properties, nor that it holds no
    others. *)
Definition canonical (rt : Js.Runtime) (lat lng : Js.number) (timestamp : string)
    (features : list Js.value) : string :=
  Js.stringify_object rt
    [("lat", Js.Num lat); ("lng", Js.Num lng); ("timestamp", Js.Str timestamp);
     ("features", Js.Arr features)].

(** [async function sha256Hex(text: string)]:
    [bytes.map((b) => b.toString(16).padStart(2, '0')).join('')] behind
    the prefix. *)
Definition sha256Hex (rt : Js.Runtime) (text : string) : string :=
  "0x" +:+ String.concat EmptyString
             (map (fun b => Js.padStart 2 "0" (Js.toString16 (Byte.to_N b)))
                  (Js.SHA256 rt text)).

(** The object [submitObservation] serialises as the request body. *)
Definition submission (lat lng : Js.number) (timestamp : string)
    (features : list Js.value) (hashHex : string) : Js.value :=
  Js.Obj [("lat", Js.Num lat); ("lng", Js.Num lng); ("timestamp", Js.Str timestamp);
          ("features", Js.Arr features); ("hashHex", Js.Str hashHex)].

(** What the server's [express.json()] hands to the route for it. *)
Definition request_body (lat lng : Js.number) (timestamp : string)
    (features : list Js.value) (hashHex : string) : Js.value :=
  Js.json_image (submission lat lng timestamp features hashHex).

(** The order in which the schema (and the client's own literals
    [{ type: ..., confidence: ... }]) list a feature's properties. *)
Definition schema_keys : list string := ["type"; "confidence"; "bbox"].

(** A feature object whose properties, once those holding [undefined] are
    left out, are some of the schema's in the schema's order. *)
Definition schema_ordered (f : Js.value) : bool :=
  Js.subsequence (Js.keys (Js.json_image f)) schema_keys.

(** *** The feature list of the form *)

(** [o[k] = v] on a property list: an existing key keeps its place, a new
    one goes last. *)
Fixpoint assign (k : string) (v : Js.value) (props : list (string * Js.value))
    : list (string * Js.value) :=
  match props with
  | [] => [(k, v)]
  | (k', v') :: rest =>
      if String.eqb k' k then (k, v) :: rest else (k', v') :: assign k v rest
  end.

(** [{ ...f, ...patch }] *)
Definition spread (f : Js.value) (patch : list (string * Js.value)) : Js.value :=
  Js.Obj (fold_left (fun acc kv => assign (fst kv) (snd kv) acc) patch (Js.props_of f)).

(** [prev.map((f, idx) => (idx === i ? { ...f, ...patch } : f))] *)
Fixpoint updateFeature_from (idx i : nat) (patch : list (string * Js.value))
    (prev : list Js.value) : list Js.value :=
  match prev with
  | [] => []
  | f :: rest =>
      (if Nat.eqb idx i then spread f patch else f)
      :: updateFeature_from (S idx) i patch rest
  end.

Definition updateFeature (i : nat) (patch : list (string * Js.value))
    (prev : list Js.value) : list Js.value :=
  updateFeature_from 0 i patch prev.

(** [prev.filter((_, idx) => idx !== i)] *)
Fixpoint removeFeature_from (idx i : nat) (prev : list Js.value) : list Js.value :=
  match prev with
  | [] => []
  | f :: rest =>
      if Nat.eqb idx i then removeFeature_from (S idx) i rest
      else f :: removeFeature_from (S idx) i rest
  end.

Definition removeFeature (i : nat) (prev : list Js.value) : list Js.value :=
  removeFeature_from 0 i prev.

(** [[...prev, { type: 'road_hazard', confidence: 0.6 }]] *)
Definition addFeature (prev : list Js.value) : list Js.value :=
  prev ++ [Js.Obj [("type", Js.Str "road_hazard"); ("confidence", Js.Num (Js.Finite 0.6))]].

(** The initial value of the [features] state. *)
Definition initial_features : list Js.value :=
  [Js.Obj [("type", Js.Str "pothole"); ("confidence", Js.Num (Js.Finite 0.87))];
   Js.Obj [("type", Js.Str "traffic_sign"); ("confidence", Js.Num (Js.Finite 0.78))]].

(** What the user can do to the list: the three buttons and the two inputs
    of a feature row.  The confidence input yields [undefined] when it is
    emptied and [Number(text)], which may be [NaN], otherwise. *)
Inductive Edit :=
| add_feature
| remove_feature (i : nat)
| edit_type (i : nat) (text : string)
| edit_confidence (i : nat) (entered : option Js.number).

Definition apply_edit (prev : list Js.value) (e : Edit) : list Js.value :=
  match e with
  | add_feature => addFeature prev
  | remove_feature i => removeFeature i prev
  | edit_type i text => updateFeature i [("type", Js.Str text)] prev
  | edit_confidence i entered =>
      updateFeature i
        [("confidence", match entered with
                        | Some n => Js.Num n
                        | None => Js.Undefined
                        end)] prev
  end.

(** The feature list after a session of edits. *)
Definition features_after (edits : list Edit) : list Js.value :=
  fold_left apply_edit edits initial_features.

(** The shape of the features the form builds. *)
Definition form_feature (f : Js.value) : Prop :=
  exists (t : string) (c : Js.value),
    f = Js.Obj [("type", Js.Str t); ("confidence", c)]
    /\ (c = Js.Undefined \/ exists n, c = Js.Num n).

End Frontend.


(** ** Statements about runs of the registry *)

Module RegistrySpec.
Import AnchorRegistry.

(** Two calls of [anchor] with the same digest, one after the other: the
    first succeeds, sets the flag and appends one [Anchored] event with the
    digest, its sender and its block time; the second is turned down as
    already anchored and leaves the world (flag and log) as the first call
    left it. *)
Definition anchor_twice (d : bytes32) (first second : Env) (w : World) : Prop :=
  let r1 := step w (call_anchor first d) in
  let r2 := step (fst r1) (call_anchor second d) in
  snd r1 = Returned_unit
  /\ anchored (fst r1) d = true
  /\ logs (fst r1) = logs w ++ [Anchored d (msg_sender first) (block_timestamp first)]
  /\ snd r2 = Failed "ALREADY_ANCHORED"
  /\ fst r2 = fst r1.

(** Two transaction environments to run examples with. *)
Definition alice_at_100 : Env := mkEnv 10%N 100%N.
Definition bob_at_200 : Env := mkEnv 11%N 200%N.

End RegistrySpec.

(** ** Words of the specification *)

Module Spec.

(** The three ways the specification names for a payload to be of the wrong
    shape: a required field is missing, a confidence lies outside [0,1], or
    the digest string is not [0x] and 64 hexadecimal digits. *)
Inductive shape_invalid : Js.value -> Prop :=
| missing_field (props : list (string * Js.value)) (k : string) :
    In k ["lat"; "lng"; "timestamp"; "hashHex"] ->
    Js.get k props = Js.Undefined ->
    shape_invalid (Js.Obj props)
| feature_without_type (props fprops : list (string * Js.value)) (items : list Js.value) :
    Js.get "features" props = Js.Arr items ->
    In (Js.Obj fprops) items ->
    Js.get "type" fprops = Js.Undefined ->
    shape_invalid (Js.Obj props)
| confidence_out_of_range (props fprops : list (string * Js.value))
    (items : list Js.value) (c : Js.number) :
    Js.get "features" props = Js.Arr items ->
    In (Js.Obj fprops) items ->
    Js.get "confidence" fprops = Js.Num c ->
    Js.lt c Backend.zero = true \/ Js.lt Backend.one c = true ->
    shape_invalid (Js.Obj props)
| malformed_digest (props : list (string * Js.value)) (s : string) :
    Js.get "hashHex" props = Js.Str s ->
    Backend.hashHex_regex s = false ->
    shape_invalid (Js.Obj props).

(** The body section 6 of the specification gives for an integrity
    mismatch. *)
Definition specified_mismatch_body : Js.value :=
  Js.Obj [("ok", Js.Bool false); ("error", Js.Str "hash mismatch")].

(** The cap of the listing. *)
Definition cap : nat := 200.

End Spec.


(** ** A stand-in platform and sample data to run the model on

    The properties below hold for every [Js.Runtime]; the one here only
    serves to evaluate the model on examples.  It prints terminating
    decimals the way JavaScript does, reads decimal integers, and replaces
    the hash primitive by a function of no cryptographic value. *)

Module Sample.

Definition digits (n : Z) : string :=
  DecimalString.NilZero.string_of_uint (N.to_uint (Z.to_N n)).

(** The decimal digits of [r / d] for [0 <= r < d], up to [fuel] of them. *)
Fixpoint fraction (fuel : nat) (r d : Z) : string :=
  match fuel with
  | O => EmptyString
  | S fuel' =>
      if (r =? 0)%Z then EmptyString
      else digits (10 * r / d) +:+ fraction fuel' ((10 * r) mod d) d
  end.

Definition print (q : Q) : string :=
  let d := Z.pos (Qden q) in
  let a := Z.abs (Qnum q) in
  (if (Qnum q <? 0)%Z then "-" else EmptyString)
  +:+ digits (a / d)
  +:+ (if (a mod d =? 0)%Z then EmptyString else "." +:+ fraction 17 (a mod d) d).

Definition read (s : string) : Js.number :=
  match DecimalString.NilZero.int_of_string s with
  | Some i => Js.Finite (inject_Z (Z.of_int i))
  | None => Js.NaN
  end.

(** Thirty-two bytes: a checksum of the text, then [0xab] throughout. *)
Fixpoint checksum (acc : N) (s : string) : N :=
  match s with
  | EmptyString => acc
  | String c rest => checksum ((acc * 31 + N_of_ascii c) mod 256)%N rest
  end.

Definition toy_hash (s : string) : list byte :=
  default Byte.x00 (Byte.of_N (checksum 7 s)) :: repeat Byte.xab 31.

Definition parse (s : string) : option Js.value :=
  if String.eqb s "[]" then Some (Js.Arr []) else None.

Definition runtime : Js.Runtime :=
  Js.mkRuntime print read toy_hash parse (fun _ => []) (fun _ => []).

Definition clock : Backend.Clock :=
  Backend.mkClock "3f0c2a52-7a4e-4c59-9a57-0d6c4c3b8e11" "2024-01-01T00:00:01.000Z".

(** The example of section 8 of the specification, in the source's field
    names. *)
Definition pothole : Js.value :=
  Js.Obj [("type", Js.Str "pothole"); ("confidence", Js.Num (Js.Finite 0.87))].

Definition example_lat : Js.number := Js.Finite 10.762622.
Definition example_lng : Js.number := Js.Finite 106.660172.
Definition example_timestamp : string := "2024-01-01T00:00:00.000Z".

(** The same feature with its two properties in the other order. *)
Definition pothole_confidence_first : Js.value :=
  Js.Obj [("confidence", Js.Num (Js.Finite 0.87)); ("type", Js.Str "pothole")].

(** The same feature with one more property than the schema names. *)
Definition pothole_with_note : Js.value :=
  Js.Obj [("type", Js.Str "pothole"); ("confidence", Js.Num (Js.Finite 0.87));
          ("note", Js.Str "deep")].

(** A feature with its confidence left out, and with it set to
    [undefined]. *)
Definition feature_a : Js.value := Js.Obj [("type", Js.Str "a")].
Definition feature_a_undefined : Js.value :=
  Js.Obj [("type", Js.Str "a"); ("confidence", Js.Undefined)].

(** Digest strings used in the examples. *)
Definition sixty_four (c : ascii) : string := Js.fill 64 c EmptyString.
Definition all_zero_digest : string := "0x" +:+ sixty_four "0".

(** [n] rows, created one after the other. *)
Definition row (i : nat) : Db.Observation :=
  Db.mkObservation ("id-" +:+ digits (Z.of_nat i))
    ("2024-01-01T00:00:00." +:+ Js.padStart 3 "0" (digits (Z.of_nat i)) +:+ "Z")
    example_lat example_lng example_timestamp "[]" all_zero_digest.

Definition rows (n : nat) : Db.table := map row (seq 0 n).

Definition upper_char (c : ascii) : ascii :=
  let n := N_of_ascii c in
  if ((97 <=? n) && (n <=? 122))%N then ascii_of_N (n - 32) else c.

Fixpoint shout (s : string) : string :=
  match s with
  | EmptyString => EmptyString
  | String c rest => String (upper_char c) (shout rest)
  end.

(** A digest string with its hexadecimal digits in capitals (the prefix
    stays [0x]). *)
Definition capitals (h : string) : string :=
  match h with
  | String a (String b digits) => String a (String b (shout digits))
  | _ => h
  end.

Definition example_canonical : string :=
  Frontend.canonical runtime example_lat example_lng example_timestamp [pothole].

Definition example_digest : string := Frontend.sha256Hex runtime example_canonical.

(** Request bodies for the example: with the digest the client derived,
    with that digest in capitals, and with a digest of another content. *)
Definition honest_body : Js.value :=
  Frontend.request_body example_lat example_lng example_timestamp [pothole] example_digest.

Definition capitals_body : Js.value :=
  Frontend.request_body example_lat example_lng example_timestamp [pothole]
    (capitals example_digest).

Definition tampered_body : Js.value :=
  Frontend.request_body example_lat example_lng example_timestamp [pothole] all_zero_digest.

(** A timestamp that is the lone surrogate U+D800, which the body
    [{"timestamp":"\ud800", ...}] yields, and a body that carries it with
    the digest of its canonical form. *)
Definition lone_surrogate_timestamp : string :=
  String (ascii_of_nat 237) (String (ascii_of_nat 160) (String (ascii_of_nat 128) EmptyString)).

Definition lone_surrogate_body : Js.value :=
  Frontend.request_body example_lat example_lng lone_surrogate_timestamp []
    (Frontend.sha256Hex runtime
       (Frontend.canonical runtime example_lat example_lng lone_surrogate_timestamp [])).

End Sample.

(** ** The event log of the registry *)

Module RegistryLog.
Import AnchorRegistry.

(** The digest an event is about. *)
Definition event_hash (e : Event) : bytes32 :=
  match e with
  | Anchored hash _ _ => hash
  end.

(** The digests the log of a world holds an event for, oldest first. *)
Definition logged (w : World) : list bytes32 := map event_hash (logs w).

(** Is [d] one of the digests of a list? *)
Definition mentions (ds : list bytes32) (d : bytes32) : bool := existsb (N.eqb d) ds.

(** What every world reached from the deployed contract satisfies: a flag is
    set exactly for the digests of the log, the log holds no digest twice,
    and it does not hold the empty hash. *)
Definition consistent (w : World) : Prop :=
  (forall d, anchored w d = mentions (logged w) d)
  /\ NoDup (logged w)
  /\ Forall (fun d => d <> 0%N) (logged w).

End RegistryLog.

Module RegistryCalls.
Import AnchorRegistry.

(** Is a call an [anchor] of the digest [d]? *)
Definition concerns (d : bytes32) (c : Call) : bool :=
  match c with
  | call_anchor _ hash => (hash =? d)%N
  | call_isAnchored _ => false
  end.

End RegistryCalls.

(** ** The table under a series of submissions *)

Module Service.

(** The table after one [POST /api/observations], with the clock readings
    of the request and its body. *)
Definition serve (rt : Js.Runtime) (db : Db.table) (request : Backend.Clock * Js.value)
    : Db.table :=
  Backend.db_after (Backend.post_observations rt (fst request) (snd request) db).

(** The table after a series of them, one after the other. *)
Definition serve_all (rt : Js.Runtime) (requests : list (Backend.Clock * Js.value))
    (db : Db.table) : Db.table :=
  fold_left (serve rt) requests db.

(** The text [JSON.stringify({ lat, lng, timestamp, features })] yields for
    the values a row holds, with the row's [features_json] standing where the
    features are written. *)
Definition row_canonical (rt : Js.Runtime) (r : Db.Observation) : string :=
  "{" +:+ String.concat ","
            [Js.QuoteJSONString "lat" +:+ ":"
               +:+ default "null" (Js.SerializeJSONProperty rt (Js.Num (Db.lat r)));
             Js.QuoteJSONString "lng" +:+ ":"
               +:+ default "null" (Js.SerializeJSONProperty rt (Js.Num (Db.lng r)));
             Js.QuoteJSONString "timestamp" +:+ ":" +:+ Js.QuoteJSONString (Db.timestamp r);
             Js.QuoteJSONString "features" +:+ ":" +:+ Db.features_json r]
      +:+ "}".

(** A row whose digest is, letter case aside, the digest of the canonical
    form of its own columns. *)
Definition verifiable (rt : Js.Runtime) (r : Db.Observation) : Prop :=
  Js.toLowerCase (Db.hash_hex r) = Backend.sha256Hex rt (row_canonical rt r).

(** A payload whose timestamp, if the schema accepts the payload, holds no
    lone surrogate, and so is stored as it was sent. *)
Definition stored_as_sent (body : Js.value) : Prop :=
  forall d : Backend.Observation,
    Backend.ObservationSchema body = Some d ->
    Db.text (Backend.timestamp d) = Backend.timestamp d.

(** A confidence the schema lets through: none, or a finite number from 0
    to 1. *)
Definition confidence_in_range (f : Backend.Feature) : Prop :=
  match Backend.confidence f with
  | None => True
  | Some (Js.Finite q) => (0 <= q)%Q /\ (q <= 1)%Q
  | Some _ => False
  end.

(** The members of a payload the schema reads. *)
Definition payload_keys : list string := ["lat"; "lng"; "timestamp"; "features"; "hashHex"].

(** A table every row of which has a [features_json] that [JSON.parse]
    reads back. *)
Definition readable (rt : Js.Runtime) (db : Db.table) : Prop :=
  Forall (fun r => Js.JSON_parse rt (Db.features_json r) <> None) db.

(** The row a successful request appends for parsed data [d]. *)
Definition row_of (rt : Js.Runtime) (clock : Backend.Clock) (d : Backend.Observation)
    : Db.Observation :=
  Db.mkObservation (Backend.randomUUID clock) (Backend.now_ISO clock)
    (Backend.lat d) (Backend.lng d) (Db.text (Backend.timestamp d))
    (Js.stringify_array rt (map Backend.feature_object (Backend.features d)))
    (Backend.hashHex d).

(** A row is listed as its columns with its features read back. *)
Definition listing_of (rt : Js.Runtime) (r : Db.Observation) (o : Js.value) : Prop :=
  exists fs, Js.JSON_parse rt (Db.features_json r) = Some fs /\ o = Backend.listed fs r.

End Service.

(** ** Reading a digest text back *)

Module Hex.

(** The value of a lowercase hexadecimal digit. *)
Definition digit_value (c : ascii) : N :=
  let n := N_of_ascii c in
  if (n <? 58)%N then (n - 48)%N else (n - 87)%N.

(** The bytes a text of two digits a byte stands for; [None] when the text
    has an odd number of characters. *)
Fixpoint decode (s : string) : option (list byte) :=
  match s with
  | EmptyString => Some []
  | String _ EmptyString => None
  | String hi (String lo rest) =>
      bs ← decode rest;
      Some (default Byte.x00 (Byte.of_N (16 * digit_value hi + digit_value lo)) :: bs)
  end.

End Hex.

(** ** The client's calls of the backend, [submitObservation] and [refresh] *)

Module Client.

(** [String(v)], as a template literal and [new Error(v)] apply it to a
    value received as JSON. *)
Fixpoint ToString (rt : Js.Runtime) (v : Js.value) : string :=
  match v with
  | Js.Undefined => "undefined"
  | Js.Null => "null"
  | Js.Bool true => "true"
  | Js.Bool false => "false"
  | Js.Num Js.NaN => "NaN"
  | Js.Num (Js.Infinity true) => "-Infinity"
  | Js.Num (Js.Infinity false) => "Infinity"
  | Js.Num (Js.Finite q) => Js.Number_toString rt q
  | Js.Str s => s
  | Js.Arr items =>
      String.concat ","
        (map (fun item => match item with
                          | Js.Undefined | Js.Null => EmptyString
                          | _ => ToString rt item
                          end) items)
  | Js.Obj _ => "[object Object]"
  end.

(** Is a value taken as true by [||] and [if]? *)
Definition truthy (v : Js.value) : bool :=
  match v with
  | Js.Undefined | Js.Null => false
  | Js.Bool b => b
  | Js.Num Js.NaN => false
  | Js.Num (Js.Finite q) => negb (Qeq_bool q 0)
  | Js.Num (Js.Infinity _) => true
  | Js.Str s => negb (String.eqb s EmptyString)
  | Js.Arr _ | Js.Obj _ => true
  end.

(** [v.k] for the member names this program reads (none of them [length]
    or an index); [None] is the [TypeError] of reading a member of
    [undefined] or [null]. *)
Definition member (v : Js.value) (k : string) : option Js.value :=
  match v with
  | Js.Undefined | Js.Null => None
  | Js.Obj props => Some (Js.get k props)
  | _ => Some Js.Undefined
  end.

(** [v?.k] *)
Definition optional_member (v : Js.value) (k : string) : Js.value :=
  default Js.Undefined (member v k).

(** [a || b] *)
Definition or_else (a b : Js.value) : Js.value := if truthy a then a else b.

(** [res.ok]: a status from 200 to 299. *)
Definition res_ok (r : Backend.Response) : bool :=
  match r with
  | Backend.json status _ => ((200 <=? status) && (status <=? 299))%Z
  | Backend.uncaught_exception => false
  end.

(** [await res.json()]: what [JSON.parse] reads from the body the server
    serialised; it rejects ([None]) on the page Express sends for an
    uncaught exception, which is no JSON. *)
Definition res_json (r : Backend.Response) : option Js.value :=
  match r with
  | Backend.json _ body => Some (Js.json_image body)
  | Backend.uncaught_exception => None
  end.

(** The exceptions the platform raises in these two functions; what they
    read as is the platform's. *)
Inductive Thrown :=
| body_is_not_json
| member_of_nothing.

(** [async function refresh()], given the answer to its [GET ...?limit=25]
    and the [observations] state: the state afterwards, or the exception it
    ends with. *)
Definition refresh (answer : Backend.Response) (observations : Js.value)
    : Thrown + Js.value :=
  match res_json answer with
  | None => inl body_is_not_json
  | Some j =>
      match member j "ok", member j "observations" with
      | Some ok, Some listed => inr (if truthy ok then listed else observations)
      | _, _ => inl member_of_nothing
      end
  end.

(** [e?.message || String(e)] of [new Error(text)]. *)
Definition Error_text (text : string) : string :=
  if String.eqb text EmptyString then "Error" else text.

(** What [submitObservation] leaves behind: the status line and the
    [observations] state. *)
Record Shown := mkShown {
  status : string;
  observations : Js.value
}.

(** [async function submitObservation()], given the answer to its [POST],
    the answer to the [GET] of the [refresh] that follows a success, the
    reading of a platform exception and the [observations] state. *)
Definition submitObservation (rt : Js.Runtime) (reads_as : Thrown -> string)
    (answer refresh_answer : Backend.Response) (observations : Js.value) : Shown :=
  match res_json answer with
  | None => mkShown ("Submit failed: " +:+ reads_as body_is_not_json) observations
  | Some j =>
      if negb (res_ok answer) then
        let error := optional_member j "error" in
        let reason :=
          or_else (optional_member error "message") (or_else error (Js.Str "Request failed")) in
        mkShown ("Submit failed: " +:+ Error_text (ToString rt reason)) observations
      else
        match member j "id" with
        | None => mkShown ("Submit failed: " +:+ reads_as member_of_nothing) observations
        | Some id =>
            match refresh refresh_answer observations with
            | inl thrown => mkShown ("Submit failed: " +:+ reads_as thrown) observations
            | inr listed => mkShown ("Saved. Observation id: " +:+ ToString rt id) listed
            end
        end
  end.

(** The query [refresh] sends. *)
Definition refresh_limit : option string := Some "25".

End Client.

(** ** Reading a quoted character back *)

Module Unquote.

(** The character the text starts with the quoted form of (one byte, or the
    three bytes of a lone surrogate) and the rest of the text; [None] when
    the text starts with no quoted character. *)
Definition read_char (s : string) : option (string * string) :=
  let one (c : ascii) := String c EmptyString in
  match s with
  | EmptyString => None
  | String c rest =>
      if (N_of_ascii c =? 34)%N then None
      else if (N_of_ascii c =? 92)%N then
        match rest with
        | String e rest' =>
            let n := N_of_ascii e in
            if (n =? 34)%N then Some (one Js.dquote, rest')
            else if (n =? 92)%N then Some (one Js.backslash, rest')
            else if (n =? 98)%N then Some (one (ascii_of_N 8), rest')
            else if (n =? 102)%N then Some (one (ascii_of_N 12), rest')
            else if (n =? 110)%N then Some (one (ascii_of_N 10), rest')
            else if (n =? 114)%N then Some (one (ascii_of_N 13), rest')
            else if (n =? 116)%N then Some (one (ascii_of_N 9), rest')
            else if (n =? 117)%N then
              match rest' with
              | String h3 (String h2 (String h1 (String h0 rest''))) =>
                  if (N_of_ascii h3 =? 100)%N then
                    let low := (256 * Hex.digit_value h2 + 16 * Hex.digit_value h1
                                + Hex.digit_value h0)%N in
                    Some (String (ascii_of_N 237)
                            (String (ascii_of_N (128 + low / 64))
                               (one (ascii_of_N (128 + low mod 64)))),
                          rest'')
                  else
                    Some (one (ascii_of_N (16 * Hex.digit_value h1 + Hex.digit_value h0)),
                          rest'')
              | _ => None
              end
            else None
        | EmptyString => None
        end
      else Some (one c, rest)
  end.

End Unquote.

(** * Properties *)

(** ** The registry *)

Section Registry.
Import AnchorRegistry.

(** What a call of [anchor] does, by cases on its two guards. *)
Lemma anchor_cases (env : Env) (hash : bytes32) (w : World) :
  step w (call_anchor env hash) =
    if (hash =? 0)%N then (w, Failed "EMPTY_HASH")
    else if anchored w hash then (w, Failed "ALREADY_ANCHORED")
    else (mkWorld (<[hash := true]> (isAnchored_slot w))
                  (logs w ++ [Anchored hash (msg_sender env) (block_timestamp env)]),
          Returned_unit).
Proof.
  unfold step, transact, anchor, anchored, mbind, exec_bind, require, sload, sstore, emit.
  destruct (hash =? 0)%N; simpl; [reflexivity |].
  destruct (default false (isAnchored_slot w !! hash)); reflexivity.
Qed.

Lemma isAnchored_cases (hash : bytes32) (w : World) :
  step w (call_isAnchored hash) = (w, Returned_bool (anchored w hash)).
Proof. reflexivity. Qed.

Lemma anchored_after_write (w : World) (hash d : bytes32) (l : list Event) :
  anchored (mkWorld (<[hash := true]> (isAnchored_slot w)) l) d
  = anchored w d || (hash =? d)%N.
Proof.
  unfold anchored; simpl.
  destruct (N.eqb_spec hash d) as [-> | Hne].
  - rewrite lookup_insert_eq; simpl. now rewrite orb_true_r.
  - rewrite lookup_insert_ne by exact Hne. now rewrite orb_false_r.
Qed.

(** One call changes the flag of [d] exactly when it is a successful
    [anchor(d)], and then from false to true. *)
Lemma step_anchored (w : World) (c : Call) (d : bytes32) :
  anchored (fst (step w c)) d
  = anchored w d || is_successful_anchor d (c, snd (step w c)).
Proof.
  destruct c as [env hash | hash].
  - rewrite anchor_cases.
    destruct (hash =? 0)%N; simpl; [now rewrite orb_false_r |].
    destruct (anchored w hash) eqn:Ha; simpl; [now rewrite orb_false_r |].
    apply anchored_after_write.
  - rewrite isAnchored_cases; simpl. now rewrite orb_false_r.
Qed.

Lemma run_app (pre post : list Call) (w : World) :
  run (pre ++ post) w = run post (run pre w).
Proof. revert w; induction pre as [| c pre IH]; intros w; simpl; [reflexivity | apply IH]. Qed.

Lemma run_anchored (cs : list Call) (w : World) (d : bytes32) :
  anchored (run cs w) d
  = anchored w d || existsb (is_successful_anchor d) (history cs w).
Proof.
  revert w; induction cs as [| c cs IH]; intros w; simpl.
  - now rewrite orb_false_r.
  - rewrite IH, step_anchored. now rewrite orb_assoc.
Qed.

(** The flag is monotone: no sequence of calls clears it. *)
Lemma anchored_forever (cs : list Call) (w : World) (d : bytes32) :
  anchored w d = true -> anchored (run cs w) d = true.
Proof. intros H. rewrite run_anchored, H. reflexivity. Qed.

End Registry.

Section RegistryClaims.
Import AnchorRegistry RegistrySpec.

(** C1, as written, at the all-zero digest: it is not anchored in the fresh
    registry, yet the first [anchor] call is turned down as an empty hash,
    so the two calls do not behave as the claim says for every digest.  (Nor
    do they for a digest that is anchored already: there the first of the two
    calls is turned down as well.) *)
Lemma anchor_twice_fails_on_zero :
  anchored genesis 0%N = false
  /\ snd (step genesis (call_anchor alice_at_100 0%N)) = Failed "EMPTY_HASH"
  /\ ~ anchor_twice 0%N alice_at_100 bob_at_200 genesis
  /\ ~ anchor_twice 1%N alice_at_100 bob_at_200
        (fst (step genesis (call_anchor alice_at_100 1%N))).
Proof.
  split; [reflexivity |]. split; [reflexivity |].
  split; intros (H & _); vm_compute in H; discriminate H.
Qed.

(** C1 (amended): for every digest other than the all-zero one that is not
    anchored yet, two [anchor] calls behave as a one-way state machine: the
    first succeeds, sets the flag and emits exactly one [Anchored] event with
    (digest, submitter, timestamp); the second fails as already anchored and
    leaves flag and log untouched.  And for every digest, the all-zero one
    included, and in every state: once the flag is true no sequence of calls
    makes it false again. *)
Theorem anchor_one_way :
  (forall (d : bytes32) (first second : Env) (w : World),
     d <> 0%N ->
     anchored w d = false ->
     anchor_twice d first second w)
  /\ (forall (d : bytes32) (w : World) (cs : list Call),
        anchored w d = true -> anchored (run cs w) d = true).
Proof.
  split.
  - intros d first second w Hnz Hfresh.
    unfold anchor_twice. cbv zeta.
    rewrite (anchor_cases first d w).
    apply N.eqb_neq in Hnz. rewrite Hnz, Hfresh. cbn [fst snd].
    rewrite anchor_cases, Hnz.
    rewrite anchored_after_write, N.eqb_refl, orb_true_r. cbn [fst snd logs].
    repeat split; reflexivity.
  - intros d w cs. apply anchored_forever.
Qed.

(** Digest 1 on the fresh registry goes through the two calls as stated; and
    in a state where the flag of the all-zero digest is set, calls of
    [anchor] for it and for another digest leave it set. *)
Lemma anchor_one_way_witness :
  (1%N <> 0%N /\ anchored genesis 1%N = false
   /\ anchor_twice 1%N alice_at_100 bob_at_200 genesis)
  /\ (anchored (mkWorld {[0%N := true]} []) 0%N = true
      /\ anchored (run [call_anchor alice_at_100 0%N; call_anchor bob_at_200 1%N;
                        call_isAnchored 0%N]
                     (mkWorld {[0%N := true]} [])) 0%N = true).
Proof.
  split.
  - split; [discriminate |]. split; [reflexivity |].
    apply (proj1 anchor_one_way 1%N alice_at_100 bob_at_200 genesis);
      [discriminate | reflexivity].
  - split; [reflexivity |].
    apply (proj2 anchor_one_way 0%N (mkWorld {[0%N := true]} [])). reflexivity.
Defined.

(** C2: in every state [anchor] of the all-zero digest fails with the
    empty-hash reason; a failed [anchor] call of any digest leaves the whole
    registry (flags and log) as it was; and the two failures carry different
    reasons, each tied to its own guard. *)
Theorem anchor_failures (w : World) (env : Env) (d : bytes32) :
  step w (call_anchor env 0%N) = (w, Failed "EMPTY_HASH")
  /\ (forall r : string,
        snd (step w (call_anchor env d)) = Failed r ->
        fst (step w (call_anchor env d)) = w
        /\ (r = "EMPTY_HASH" /\ d = 0%N
            \/ r = "ALREADY_ANCHORED" /\ d <> 0%N /\ anchored w d = true))
  /\ "EMPTY_HASH" <> "ALREADY_ANCHORED".
Proof.
  split; [apply anchor_cases |]. split; [| discriminate].
  intros r. rewrite anchor_cases.
  destruct (N.eqb_spec d 0) as [-> | Hnz]; cbn [fst snd].
  - intros [= <-]. split; [reflexivity |]. left. split; reflexivity.
  - destruct (anchored w d) eqn:Ha; cbn [fst snd]; [| discriminate].
    intros [= <-]. split; [reflexivity |]. right. repeat split; assumption.
Qed.

Lemma anchor_failures_witness :
  snd (step genesis (call_anchor alice_at_100 0%N)) = Failed "EMPTY_HASH"
  /\ fst (step genesis (call_anchor alice_at_100 0%N)) = genesis.
Proof.
  split; [reflexivity |].
  apply (proj1 (proj2 (anchor_failures genesis alice_at_100 0%N)) "EMPTY_HASH" eq_refl).
Defined.

(** C3: [isAnchored(d)] returns the flag and changes nothing; and after any
    calls [pre] and then any calls [post] on a fresh registry it is true
    exactly when [pre] or [post] holds a successful [anchor(d)]: false in
    every state reached before one, true in every state reached after one,
    whatever follows. *)
Theorem isAnchored_reads_history (d : bytes32) :
  (forall w : World, step w (call_isAnchored d) = (w, Returned_bool (anchored w d)))
  /\ forall pre post : list Call,
       anchored (run (pre ++ post) genesis) d
       = existsb (is_successful_anchor d) (history pre genesis)
         || existsb (is_successful_anchor d) (history post (run pre genesis)).
Proof.
  split; [intros w; apply isAnchored_cases |].
  intros pre post. rewrite run_app, run_anchored, run_anchored. reflexivity.
Qed.

End RegistryClaims.


(** ** [JSON.stringify] *)

Section Json.
Import Js.
Variable rt : Runtime.

(** Induction over values, through the items of arrays and the property
    values of objects. *)
Lemma value_ind (P : value -> Prop) :
  P Undefined -> P Null -> (forall b, P (Bool b)) -> (forall n, P (Num n)) ->
  (forall s, P (Str s)) ->
  (forall items, Forall P items -> P (Arr items)) ->
  (forall props, Forall (fun kv => P (snd kv)) props -> P (Obj props)) ->
  forall v, P v.
Proof.
  intros HU HN HB HNum HS HA HO.
  fix IH 1. intros [ | | b | n | s | items | props].
  - exact HU.
  - exact HN.
  - apply HB.
  - apply HNum.
  - apply HS.
  - apply HA. induction items as [| x xs IHxs]; constructor; [apply IH | exact IHxs].
  - apply HO. induction props as [| [k x] ps IHps]; constructor; [apply IH | exact IHps].
Qed.

Lemma serialize_undefined (v : value) :
  SerializeJSONProperty rt v = None <-> v = Undefined.
Proof.
  split.
  - destruct v as [ | | [|] | [ | | ] | | | ]; simpl; intros H; try discriminate H; reflexivity.
  - intros ->; reflexivity.
Qed.

(** A property holding [undefined] leaves no trace in the output, wherever
    it stands among the others. *)
Lemma stringify_object_skips_undefined (before after : list (string * value)) (k : string) :
  stringify_object rt (before ++ (k, Undefined) :: after)
  = stringify_object rt (before ++ after).
Proof.
  unfold stringify_object, SerializeJSONObject.
  rewrite !omap_app. reflexivity.
Qed.

Lemma omap_cons {A B} (f : A -> option B) (x : A) (l : list A) :
  omap f (x :: l) = match f x with Some y => y :: omap f l | None => omap f l end.
Proof. reflexivity. Qed.

(** The text written for a value and the text written for what is read back
    from that text are the same. *)
Lemma serialize_json_image (v : value) :
  SerializeJSONProperty rt (json_image v) = SerializeJSONProperty rt v.
Proof.
  induction v as [ | | b | n | s | items IH | props IH] using value_ind;
    try reflexivity.
  - destruct n; reflexivity.
  - cbn [json_image SerializeJSONProperty]. f_equal.
    unfold SerializeJSONArray. rewrite map_map.
    replace (map _ items)
      with (map (fun v => default "null" (SerializeJSONProperty rt v)) items);
      [reflexivity |].
    induction IH as [| x xs Hx _ IHxs]; [reflexivity |].
    cbn [map]. f_equal; [| exact IHxs].
    destruct x; try (now rewrite Hx); reflexivity.
  - cbn [json_image SerializeJSONProperty]. f_equal.
    unfold SerializeJSONObject. f_equal. f_equal. f_equal.
    induction IH as [| [k x] ps Hx _ IHps]; [reflexivity |].
    cbn [snd] in Hx.
    rewrite (omap_cons _ (k, x) ps), (omap_cons _ (k, x) ps).
    destruct x; cbv beta iota;
      rewrite ?omap_cons; cbv beta iota; rewrite ?Hx, IHps; reflexivity.
Qed.

End Json.


(** ** Hashing *)

Section Hashing.
Variable rt : Js.Runtime.

(** The client's [b.toString(16).padStart(2, '0')] and Node's ['hex']
    encoding write the same two digits for every byte. *)
Lemma client_hex_of_byte (b : byte) :
  Js.padStart 2 "0" (Js.toString16 (Byte.to_N b)) = Backend.hex_of_byte b.
Proof. destruct b; reflexivity. Qed.

(** The two [sha256Hex] functions agree on every text. *)
Lemma sha256Hex_client_server (text : string) :
  Frontend.sha256Hex rt text = Backend.sha256Hex rt text.
Proof.
  unfold Frontend.sha256Hex, Backend.sha256Hex, Backend.digest_hex.
  do 2 f_equal. apply map_ext. intros b. apply client_hex_of_byte.
Qed.

Lemma toLowerCase_app (s t : string) :
  Js.toLowerCase (s +:+ t) = Js.toLowerCase s +:+ Js.toLowerCase t.
Proof. induction s as [| c s IH]; simpl; [reflexivity | now rewrite IH]. Qed.

Lemma toLowerCase_hex_of_byte (b : byte) :
  Js.toLowerCase (Backend.hex_of_byte b) = Backend.hex_of_byte b.
Proof. destruct b; reflexivity. Qed.

Lemma append_cons (c : ascii) (s t : string) : String c s +:+ t = String c (s +:+ t).
Proof. reflexivity. Qed.

Lemma append_empty (s : string) : s +:+ EmptyString = s.
Proof. induction s as [| c s IH]; [reflexivity | now rewrite append_cons, IH]. Qed.

Lemma concat_empty_cons (x : string) (xs : list string) :
  String.concat EmptyString (x :: xs) = x +:+ String.concat EmptyString xs.
Proof. destruct xs; simpl; [now rewrite append_empty | reflexivity]. Qed.

Lemma toLowerCase_digest_hex (bs : list byte) :
  Js.toLowerCase (Backend.digest_hex bs) = Backend.digest_hex bs.
Proof.
  unfold Backend.digest_hex.
  induction bs as [| b bs IH]; [reflexivity |].
  cbn [map]. rewrite concat_empty_cons, toLowerCase_app, toLowerCase_hex_of_byte, IH.
  reflexivity.
Qed.

(** The digest the server derives is lowercase already. *)
Lemma sha256Hex_lowercase (text : string) :
  Js.toLowerCase (Backend.sha256Hex rt text) = Backend.sha256Hex rt text.
Proof.
  unfold Backend.sha256Hex. rewrite toLowerCase_app, toLowerCase_digest_hex. reflexivity.
Qed.

End Hashing.


(** ** The schema *)

Section Schema.
Import Backend.

Lemma confidence_outside_rejected (c : Js.number) :
  Js.lt c zero = true \/ Js.lt one c = true ->
  z_optional (z_max one (z_min zero z_number)) (Js.Num c) = None.
Proof.
  intros Hout. unfold z_optional, z_max, z_min.
  destruct c as [ | neg | q]; [reflexivity | |].
  - destruct Hout as [Hlo | Hhi]; destruct neg; cbn in *;
      first [reflexivity | discriminate].
  - cbn [z_number mbind option_bind]. destruct Hout as [Hlo | Hhi].
    + rewrite Hlo. reflexivity.
    + destruct (Js.lt (Js.Finite q) zero); cbn [mbind option_bind]; [reflexivity |].
      rewrite Hhi. reflexivity.
Qed.

(** Once one field of the payload is known to fail, the outcome of the
    fields read before it does not matter. *)
Ltac skip_field k :=
  match goal with
  | |- context [?p (Js.get k ?props)] =>
      destruct (p (Js.get k props)); cbn [mbind option_bind]; [| reflexivity]
  end.

Lemma feature_rejected (props : list (string * Js.value)) (items : list Js.value)
    (bad : Js.value) :
  Js.get "features" props = Js.Arr items ->
  In bad items ->
  FeatureSchema bad = None ->
  ObservationSchema (Js.Obj props) = None.
Proof.
  intros Hfs Hin Hbad. unfold ObservationSchema. rewrite Hfs.
  assert (Hnone : z_default [] (z_array FeatureSchema) (Js.Arr items) = None).
  { cbn [z_default z_array]. apply mapM_None_2, Exists_exists. exists bad.
    split; [apply list_elem_of_In; exact Hin | exact Hbad]. }
  rewrite Hnone.
  skip_field "lat". skip_field "lng". skip_field "timestamp". reflexivity.
Qed.

(** A payload of one of the three wrong shapes does not pass
    [ObservationSchema]. *)
Lemma shape_invalid_rejected (body : Js.value) :
  Spec.shape_invalid body -> ObservationSchema body = None.
Proof.
  intros H.
  destruct H as [props k Hk Hget | props fprops items Hfs Hin Hty
                 | props fprops items c Hfs Hin Hc Hout | props s Hget Hre].
  - unfold ObservationSchema. cbn [In] in Hk.
    destruct Hk as [<- | [<- | [<- | [<- | []]]]]; rewrite Hget;
      cbn [z_number z_string z_regex mbind option_bind];
      try skip_field "lat"; try skip_field "lng"; try skip_field "timestamp";
      try skip_field "features"; reflexivity.
  - apply (feature_rejected props items (Js.Obj fprops) Hfs Hin).
    unfold FeatureSchema. rewrite Hty. reflexivity.
  - apply (feature_rejected props items (Js.Obj fprops) Hfs Hin).
    unfold FeatureSchema. rewrite Hc, (confidence_outside_rejected c Hout).
    destruct (z_string (Js.get "type" fprops)); reflexivity.
  - unfold ObservationSchema. rewrite Hget. unfold z_regex at 1.
    cbn [z_string mbind option_bind]. rewrite Hre.
    skip_field "lat". skip_field "lng". skip_field "timestamp". skip_field "features".
    reflexivity.
Qed.

(** What passing the schema says about a payload. *)
Lemma ObservationSchema_accepts (body : Js.value) (d : Observation) :
  ObservationSchema body = Some d ->
  exists props,
    body = Js.Obj props
    /\ Js.get "lat" props = Js.Num (lat d)
    /\ Js.get "lng" props = Js.Num (lng d)
    /\ Js.get "timestamp" props = Js.Str (timestamp d)
    /\ z_default [] (z_array FeatureSchema) (Js.get "features" props) = Some (features d)
    /\ Js.get "hashHex" props = Js.Str (hashHex d)
    /\ hashHex_regex (hashHex d) = true.
Proof.
  unfold ObservationSchema. destruct body as [ | | | | | | props]; try discriminate.
  intros H. exists props. split; [reflexivity |].
  destruct (Js.get "lat" props) as [ | | | [ | neg | q] | | | ]; try discriminate H;
    destruct (Js.get "lng" props) as [ | | | [ | neg' | q'] | | | ]; try discriminate H;
    destruct (Js.get "timestamp" props); try discriminate H;
    cbn in H;
    destruct (z_default [] (z_array FeatureSchema) (Js.get "features" props));
    try discriminate H; cbn in H;
    unfold z_regex in H;
    destruct (Js.get "hashHex" props); try discriminate H; cbn in H;
    (destruct (hashHex_regex _) eqn:Hre; [| discriminate H]);
    injection H as <-; cbn; repeat split; try reflexivity; exact Hre.
Qed.

End Schema.


(** ** [POST /api/observations] *)

Section Post.
Import Backend.
Variable rt : Js.Runtime.

(** The three ways out of the handler. *)
Lemma post_invalid (clock : Clock) (body : Js.value) (db : Db.table) :
  ObservationSchema body = None ->
  post_observations rt clock body db
  = mkHandled db
      (json 400 (Js.Obj [("ok", Js.Bool false); ("error", flatten rt body)])) [].
Proof. intros H. unfold post_observations. rewrite H. reflexivity. Qed.

Lemma post_mismatch (clock : Clock) (body : Js.value) (db : Db.table) (d : Observation) :
  ObservationSchema body = Some d ->
  Js.toLowerCase (sha256Hex rt (canonical rt d)) <> Js.toLowerCase (hashHex d) ->
  post_observations rt clock body db
  = mkHandled db
      (json 400 (Js.Obj [("ok", Js.Bool false); ("error", Js.Str hash_mismatch_message)]))
      [canonical rt d].
Proof.
  intros H Hne. unfold post_observations. rewrite H. cbv zeta.
  apply String.eqb_neq in Hne. rewrite Hne. reflexivity.
Qed.

Lemma post_match (clock : Clock) (body : Js.value) (db : Db.table) (d : Observation) :
  ObservationSchema body = Some d ->
  Js.toLowerCase (sha256Hex rt (canonical rt d)) = Js.toLowerCase (hashHex d) ->
  post_observations rt clock body db
  = let row :=
      Db.mkObservation (randomUUID clock) (now_ISO clock) (lat d) (lng d)
        (Db.text (timestamp d))
        (Js.stringify_array rt (map feature_object (features d))) (hashHex d) in
    match Db.insert row db with
    | None => mkHandled db uncaught_exception [canonical rt d]
    | Some db' =>
        mkHandled db'
          (json 200 (Js.Obj [("ok", Js.Bool true); ("id", Js.Str (randomUUID clock));
                             ("createdAt", Js.Str (now_ISO clock));
                             ("hashHex", Js.Str (hashHex d))]))
          [canonical rt d]
    end.
Proof.
  intros H He. unfold post_observations. rewrite H. cbv zeta.
  apply String.eqb_eq in He. rewrite He. reflexivity.
Qed.

(** The table changes only by the insertion at the end of the matching
    path. *)
Lemma post_changes_table (clock : Clock) (body : Js.value) (db : Db.table) :
  db_after (post_observations rt clock body db) <> db ->
  exists d,
    ObservationSchema body = Some d
    /\ Js.toLowerCase (sha256Hex rt (canonical rt d)) = Js.toLowerCase (hashHex d).
Proof.
  intros Hchg. destruct (ObservationSchema body) as [d |] eqn:Hp.
  - exists d. split; [reflexivity |].
    destruct (string_dec (Js.toLowerCase (sha256Hex rt (canonical rt d)))
                         (Js.toLowerCase (hashHex d))) as [He | Hne]; [exact He |].
    rewrite (post_mismatch clock body db d Hp Hne) in Hchg. now contradiction Hchg.
  - rewrite (post_invalid clock body db Hp) in Hchg. now contradiction Hchg.
Qed.

End Post.

Section PostClaims.
Import Backend.

(** C5: a payload of a wrong shape (a required field missing, a confidence
    outside [0,1], a digest that is not [0x] and 64 hexadecimal digits; or
    any other payload the schema turns down) is answered with status 400 and
    the flattened issues as [error], an object and so never the string of an
    integrity error; the table is untouched and nothing has been
    canonicalised or hashed. *)
Theorem validation_comes_first (rt : Js.Runtime) (clock : Clock) (body : Js.value)
    (db : Db.table) :
  Spec.shape_invalid body \/ ObservationSchema body = None ->
  post_observations rt clock body db
  = mkHandled db
      (json 400 (Js.Obj [("ok", Js.Bool false); ("error", flatten rt body)])) []
  /\ forall message : string, flatten rt body <> Js.Str message.
Proof.
  intros H. split; [| discriminate].
  apply post_invalid. destruct H as [H | H]; [apply shape_invalid_rejected |]; exact H.
Qed.

Lemma validation_comes_first_witness :
  Spec.shape_invalid (Js.Obj [("lng", Js.Num Sample.example_lng)])
  /\ db_after (post_observations Sample.runtime Sample.clock
                 (Js.Obj [("lng", Js.Num Sample.example_lng)]) (Sample.rows 2))
     = Sample.rows 2
  /\ hashed (post_observations Sample.runtime Sample.clock
               (Js.Obj [("lng", Js.Num Sample.example_lng)]) (Sample.rows 2))
     = [].
Proof.
  assert (Hbad : Spec.shape_invalid (Js.Obj [("lng", Js.Num Sample.example_lng)])).
  { apply (Spec.missing_field _ "lat"); [left; reflexivity | reflexivity]. }
  split; [exact Hbad |].
  rewrite (proj1 (validation_comes_first Sample.runtime Sample.clock _ (Sample.rows 2)
                    (or_introl Hbad))).
  split; reflexivity.
Defined.

(** The two other wrong shapes, on the example of the specification. *)
Example confidence_above_one_is_invalid :
  Spec.shape_invalid
    (Js.Obj [("lat", Js.Num Sample.example_lat); ("lng", Js.Num Sample.example_lng);
             ("timestamp", Js.Str Sample.example_timestamp);
             ("features", Js.Arr [Js.Obj [("type", Js.Str "pothole");
                                          ("confidence", Js.Num (Js.Finite 1.5))]]);
             ("hashHex", Js.Str Sample.all_zero_digest)]).
Proof.
  eapply (Spec.confidence_out_of_range _ _ _ (Js.Finite 1.5)).
  - reflexivity.
  - left; reflexivity.
  - reflexivity.
  - right; reflexivity.
Qed.

Example short_digest_is_invalid :
  Spec.shape_invalid
    (Js.Obj [("lat", Js.Num Sample.example_lat); ("lng", Js.Num Sample.example_lng);
             ("timestamp", Js.Str Sample.example_timestamp);
             ("features", Js.Arr []);
             ("hashHex", Js.Str "0xabc")]).
Proof. apply (Spec.malformed_digest _ "0xabc"); reflexivity. Qed.

(** C4: a payload that passes the schema but whose claimed digest differs,
    letter case aside, from the digest recomputed over the canonical form of
    its fields is answered with status 400 and the mismatch message, which no
    validation answer carries; the table is as before, hence so is every
    later listing.  Conversely the table changes only for a payload that
    passes the schema and whose digest matches. *)
Theorem integrity_gate (rt : Js.Runtime) (clock : Clock) (body : Js.value) (db : Db.table) :
  (forall d : Observation,
     ObservationSchema body = Some d ->
     Js.toLowerCase (sha256Hex rt (canonical rt d)) <> Js.toLowerCase (hashHex d) ->
     response (post_observations rt clock body db)
     = json 400 (Js.Obj [("ok", Js.Bool false); ("error", Js.Str hash_mismatch_message)])
     /\ (forall rejected : Js.value,
           response (post_observations rt clock body db)
           <> json 400 (Js.Obj [("ok", Js.Bool false); ("error", flatten rt rejected)]))
     /\ db_after (post_observations rt clock body db) = db
     /\ forall query_limit : option string,
          get_observations rt query_limit (db_after (post_observations rt clock body db))
          = get_observations rt query_limit db)
  /\ (db_after (post_observations rt clock body db) <> db ->
      exists d : Observation,
        ObservationSchema body = Some d
        /\ Js.toLowerCase (sha256Hex rt (canonical rt d)) = Js.toLowerCase (hashHex d)).
Proof.
  split; [| apply post_changes_table].
  intros d Hd Hne. rewrite (post_mismatch rt clock body db d Hd Hne). cbn [response db_after].
  repeat split; try reflexivity. intros rejected. discriminate.
Qed.

Lemma integrity_gate_witness :
  ObservationSchema Sample.tampered_body <> None
  /\ response (post_observations Sample.runtime Sample.clock Sample.tampered_body
                 (Sample.rows 2))
     = json 400 (Js.Obj [("ok", Js.Bool false); ("error", Js.Str hash_mismatch_message)])
  /\ db_after (post_observations Sample.runtime Sample.clock Sample.tampered_body
                 (Sample.rows 2))
     = Sample.rows 2
  /\ db_after (post_observations Sample.runtime Sample.clock Sample.honest_body
                 (Sample.rows 2))
     <> Sample.rows 2
  /\ exists d : Observation,
       ObservationSchema Sample.honest_body = Some d
       /\ Js.toLowerCase (sha256Hex Sample.runtime (canonical Sample.runtime d))
          = Js.toLowerCase (hashHex d).
Proof.
  split; [discriminate |].
  destruct (ObservationSchema Sample.tampered_body) as [d |] eqn:Hd;
    [| vm_compute in Hd; discriminate Hd].
  assert (Hne : Js.toLowerCase (sha256Hex Sample.runtime (canonical Sample.runtime d))
                <> Js.toLowerCase (hashHex d)).
  { vm_compute in Hd. injection Hd as <-. vm_compute. discriminate. }
  destruct (proj1 (integrity_gate Sample.runtime Sample.clock Sample.tampered_body
                     (Sample.rows 2)) d Hd Hne) as (Hr & _ & Hdb & _).
  split; [exact Hr |]. split; [exact Hdb |].
  assert (Hchg : db_after (post_observations Sample.runtime Sample.clock Sample.honest_body
                             (Sample.rows 2)) <> Sample.rows 2).
  { vm_compute. discriminate. }
  split; [exact Hchg |].
  exact (proj2 (integrity_gate Sample.runtime Sample.clock Sample.honest_body
                  (Sample.rows 2)) Hchg).
Defined.

(** C9, as written, on the example with a digest of another content: the
    payload passes the schema, its digest differs from the recomputed one,
    and the answer is status 400 with a longer message than the body the
    specification gives; neither this body nor its [error] has a [kind]
    member. *)
Lemma mismatch_body_is_not_the_specified_one :
  (exists d : Observation,
     ObservationSchema Sample.tampered_body = Some d
     /\ Js.toLowerCase (sha256Hex Sample.runtime (canonical Sample.runtime d))
        <> Js.toLowerCase (hashHex d))
  /\ response (post_observations Sample.runtime Sample.clock Sample.tampered_body [])
     = json 400
         (Js.Obj [("ok", Js.Bool false);
                  ("error", Js.Str "Hash mismatch (server recomputed a different value).")])
  /\ response (post_observations Sample.runtime Sample.clock Sample.tampered_body [])
     <> json 400 Spec.specified_mismatch_body
  /\ Js.get "kind"
       [("ok", Js.Bool false);
        ("error", Js.Str "Hash mismatch (server recomputed a different value).")]
     = Js.Undefined.
Proof.
  split.
  - eexists. split; [vm_compute; reflexivity |]. vm_compute. discriminate.
  - split; [vm_compute; reflexivity |]. split; [vm_compute; discriminate | reflexivity].
Qed.

(** C9 (amended): every submission that passes the schema and whose
    recomputed digest differs from the claimed one is answered with status
    400 and the body [{ ok: false, error: "Hash mismatch (server recomputed a
    different value)." }].  An error body of this route has no [kind]
    member: what tells the two errors apart is its [error] member, that
    string for a mismatch and the object of flattened issues for a rejected
    shape. *)
Theorem mismatch_response (rt : Js.Runtime) (clock : Clock) (body : Js.value)
    (db : Db.table) (d : Observation) :
  ObservationSchema body = Some d ->
  Js.toLowerCase (sha256Hex rt (canonical rt d)) <> Js.toLowerCase (hashHex d) ->
  response (post_observations rt clock body db)
  = json 400
      (Js.Obj [("ok", Js.Bool false);
               ("error", Js.Str "Hash mismatch (server recomputed a different value).")])
  /\ forall (any : Js.value) (status : Z) (props : list (string * Js.value)),
       response (post_observations rt clock any db) = json status (Js.Obj props) ->
       Js.get "ok" props = Js.Bool false ->
       status = 400%Z
       /\ Js.get "kind" props = Js.Undefined
       /\ (Js.get "error" props = Js.Str hash_mismatch_message
           \/ Js.get "error" props = flatten rt any
              /\ forall message : string, flatten rt any <> Js.Str message).
Proof.
  intros Hd Hne. split.
  - rewrite (post_mismatch rt clock body db d Hd Hne). reflexivity.
  - intros any status props Hres Hok.
    destruct (ObservationSchema any) as [d' |] eqn:Hany.
    + destruct (string_dec (Js.toLowerCase (sha256Hex rt (canonical rt d')))
                           (Js.toLowerCase (hashHex d'))) as [He | Hne'].
      * rewrite (post_match rt clock any db d' Hany He) in Hres. cbv zeta in Hres.
        destruct (Db.insert _ db); cbn [response] in Hres; [| discriminate Hres].
        injection Hres as <- <-. discriminate Hok.
      * rewrite (post_mismatch rt clock any db d' Hany Hne') in Hres.
        injection Hres as <- <-. repeat split. left. reflexivity.
    + rewrite (post_invalid rt clock any db Hany) in Hres.
      injection Hres as <- <-. repeat split. right. split; [reflexivity | discriminate].
Qed.

Lemma mismatch_response_witness :
  response (post_observations Sample.runtime Sample.clock Sample.tampered_body [])
  = json 400
      (Js.Obj [("ok", Js.Bool false);
               ("error", Js.Str "Hash mismatch (server recomputed a different value).")]).
Proof.
  destruct (ObservationSchema Sample.tampered_body) as [d |] eqn:Hd;
    [| vm_compute in Hd; discriminate Hd].
  assert (Hne : Js.toLowerCase (sha256Hex Sample.runtime (canonical Sample.runtime d))
                <> Js.toLowerCase (hashHex d)).
  { vm_compute in Hd. injection Hd as <-. vm_compute. discriminate. }
  exact (proj1 (mismatch_response Sample.runtime Sample.clock Sample.tampered_body [] d
                  Hd Hne)).
Defined.

(** C10: when a submission is answered with status 200, the digest in the
    answer and the digest of the row appended to the table are the string the
    client sent as [hashHex], letter for letter.  That string equals the
    recomputed digest only up to the case of its letters, while the
    recomputed digest itself is always lowercase. *)
Theorem stored_digest_is_verbatim (rt : Js.Runtime) (clock : Clock) (body : Js.value)
    (db : Db.table) (answer : Js.value) :
  response (post_observations rt clock body db) = json 200 answer ->
  (exists (props : list (string * Js.value)) (claimed : string) (row : Db.Observation)
          (d : Observation),
     body = Js.Obj props
     /\ Js.get "hashHex" props = Js.Str claimed
     /\ ObservationSchema body = Some d
     /\ answer = Js.Obj [("ok", Js.Bool true); ("id", Js.Str (randomUUID clock));
                         ("createdAt", Js.Str (now_ISO clock));
                         ("hashHex", Js.Str claimed)]
     /\ db_after (post_observations rt clock body db) = db ++ [row]
     /\ Db.hash_hex row = claimed
     /\ Js.toLowerCase claimed = sha256Hex rt (canonical rt d))
  /\ forall text : string, Js.toLowerCase (sha256Hex rt text) = sha256Hex rt text.
Proof.
  intros Hres. split; [| apply sha256Hex_lowercase].
  destruct (ObservationSchema body) as [d |] eqn:Hd.
  - destruct (string_dec (Js.toLowerCase (sha256Hex rt (canonical rt d)))
                         (Js.toLowerCase (hashHex d))) as [He | Hne].
    + rewrite (post_match rt clock body db d Hd He) in Hres |- *. cbv zeta in Hres |- *.
      unfold Db.insert in Hres |- *.
      destruct (existsb _ db); cbn [response db_after] in Hres |- *; [discriminate Hres |].
      injection Hres as <-.
      destruct (ObservationSchema_accepts body d Hd) as (props & -> & _ & _ & _ & _ & Hh & _).
      eexists props, (hashHex d), _, d.
      repeat split; try reflexivity; try assumption.
      rewrite <- He. apply sha256Hex_lowercase.
    + rewrite (post_mismatch rt clock body db d Hd Hne) in Hres. discriminate Hres.
  - rewrite (post_invalid rt clock body db Hd) in Hres. discriminate Hres.
Qed.

Lemma stored_digest_is_verbatim_witness :
  response (post_observations Sample.runtime Sample.clock Sample.capitals_body [])
  = json 200
      (Js.Obj [("ok", Js.Bool true); ("id", Js.Str (randomUUID Sample.clock));
               ("createdAt", Js.Str (now_ISO Sample.clock));
               ("hashHex", Js.Str (Sample.capitals Sample.example_digest))])
  /\ (exists (props : list (string * Js.value)) (claimed : string) (row : Db.Observation)
             (d : Observation),
        Sample.capitals_body = Js.Obj props
        /\ Js.get "hashHex" props = Js.Str claimed
        /\ ObservationSchema Sample.capitals_body = Some d
        /\ Js.Obj [("ok", Js.Bool true); ("id", Js.Str (randomUUID Sample.clock));
                   ("createdAt", Js.Str (now_ISO Sample.clock));
                   ("hashHex", Js.Str (Sample.capitals Sample.example_digest))]
           = Js.Obj [("ok", Js.Bool true); ("id", Js.Str (randomUUID Sample.clock));
                     ("createdAt", Js.Str (now_ISO Sample.clock));
                     ("hashHex", Js.Str claimed)]
        /\ db_after (post_observations Sample.runtime Sample.clock Sample.capitals_body [])
           = [] ++ [row]
        /\ Db.hash_hex row = claimed
        /\ Js.toLowerCase claimed
           = sha256Hex Sample.runtime (canonical Sample.runtime d)).
Proof.
  assert (Hres : response (post_observations Sample.runtime Sample.clock
                             Sample.capitals_body [])
                 = json 200
                     (Js.Obj [("ok", Js.Bool true); ("id", Js.Str (randomUUID Sample.clock));
                              ("createdAt", Js.Str (now_ISO Sample.clock));
                              ("hashHex", Js.Str (Sample.capitals Sample.example_digest))])).
  { vm_compute. reflexivity. }
  split; [exact Hres |].
  exact (proj1 (stored_digest_is_verbatim Sample.runtime Sample.clock Sample.capitals_body
                  [] _ Hres)).
Defined.

(** The row of that example holds capitals where the recomputed digest has
    small letters. *)
Example capitals_are_stored :
  map Db.hash_hex
      (db_after (post_observations Sample.runtime Sample.clock Sample.capitals_body []))
  = ["0xFFABABABABABABABABABABABABABABABABABABABABABABABABABABABABABABAB"]
  /\ sha256Hex Sample.runtime Sample.example_canonical
     = "0xffababababababababababababababababababababababababababababababab".
Proof. split; vm_compute; reflexivity. Qed.

End PostClaims.


(** ** [GET /api/observations] *)

Section Listing.
Import Backend.

Lemma leb_trans (a b c : string) :
  String.leb a b = true -> String.leb b c = true -> String.leb a c = true.
Proof.
  intros Hab Hbc. apply Is_true_true.
  apply (transitivity (R := String.le) (y := b)); apply Is_true_true; assumption.
Qed.

Lemma leb_false_flip (a b : string) : String.leb a b = false -> String.leb b a = true.
Proof. intros H. destruct (String.leb_total a b) as [H' | H']; congruence. Qed.

Lemma place_elements (r : Db.Observation) (l : list Db.Observation) (P : Db.Observation -> Prop) :
  P r -> Forall P l -> Forall P (Db.place r l).
Proof.
  intros Hr Hl. induction Hl as [| x l Hx Hl IH]; cbn [Db.place].
  - constructor; [exact Hr | constructor].
  - destruct (String.leb _ _); repeat (constructor; try assumption).
Qed.

Lemma place_sorted (r : Db.Observation) (l : list Db.Observation) :
  StronglySorted Db.not_older l -> StronglySorted Db.not_older (Db.place r l).
Proof.
  induction 1 as [| x l Hs IH Hx]; cbn [Db.place].
  - repeat constructor.
  - destruct (String.leb (Db.created_at r) (Db.created_at x)) eqn:Hrx.
    + constructor; [exact IH |]. apply place_elements; [exact Hrx | exact Hx].
    + apply leb_false_flip in Hrx.
      constructor; [constructor; assumption |].
      constructor; [exact Hrx |].
      eapply Forall_impl; [exact Hx |].
      intros y Hy. unfold Db.not_older in *. eapply leb_trans; eassumption.
Qed.

Lemma place_length (r : Db.Observation) (l : list Db.Observation) :
  length (Db.place r l) = S (length l).
Proof.
  induction l as [| x l IH]; cbn [Db.place]; [reflexivity |].
  destruct (String.leb _ _); cbn [length]; [now rewrite IH | reflexivity].
Qed.

(** The ordered rows are the rows of the table, newest first. *)
Lemma order_by_sorted (t : Db.table) :
  StronglySorted Db.not_older (Db.order_by_created_at_desc t).
Proof.
  induction t as [| r t IH]; cbn [Db.order_by_created_at_desc];
    [constructor | apply place_sorted; exact IH].
Qed.

Lemma order_by_length (t : Db.table) :
  length (Db.order_by_created_at_desc t) = length t.
Proof.
  induction t as [| r t IH]; cbn [Db.order_by_created_at_desc];
    [reflexivity | now rewrite place_length, IH].
Qed.

Lemma limit_sorted (k : Z) (rows : list Db.Observation) :
  StronglySorted Db.not_older rows -> StronglySorted Db.not_older (Db.limit k rows).
Proof.
  intros H. unfold Db.limit. destruct (k <? 0)%Z; [exact H |].
  rewrite <- (take_drop (Z.to_nat k) rows) in H.
  eapply StronglySorted_app_1_l; exact H.
Qed.

Lemma limit_length (k : Z) (rows : list Db.Observation) :
  (0 <= k)%Z -> length (Db.limit k rows) <= Z.to_nat k.
Proof.
  intros Hk. unfold Db.limit.
  destruct (Z.ltb_spec k 0); [lia |]. rewrite length_take. lia.
Qed.

End Listing.

Section ListingClaims.
Import Backend.
Variable rt : Js.Runtime.

Lemma order_by_elements (P : Db.Observation -> Prop) (t : Db.table) :
  Forall P t -> Forall P (Db.order_by_created_at_desc t).
Proof.
  induction 1 as [| r t Hr Ht IH]; cbn [Db.order_by_created_at_desc];
    [constructor | apply place_elements; assumption].
Qed.

(** What a listing that was answered is made of. *)
Lemma listing_inv (query_limit : option string) (db : Db.table) (out : list Js.value) :
  observations_of (get_observations rt query_limit db) = Some out ->
  exists k : Z,
    Db.as_integer (Js.Math_min (requested_limit rt query_limit) (Js.Finite 200)) = Some k
    /\ Forall2 (fun r o => exists fs, o = listed fs r)
         (Db.limit k (Db.order_by_created_at_desc db)) out.
Proof.
  unfold get_observations, Db.select_recent. cbv zeta.
  destruct (Db.as_integer _) as [k |]; cbn [mbind option_bind]; [| discriminate].
  destruct (mapM _ _) as [out' |] eqn:Hm; cbn; [| discriminate].
  intros [= <-]. exists k. split; [reflexivity |].
  apply mapM_Some_1 in Hm. eapply Forall2_impl; [exact Hm |].
  intros r o Hro. cbn in Hro.
  destruct (Js.JSON_parse rt (Db.features_json r)) as [fs |]; [| discriminate Hro].
  injection Hro as <-. exists fs. reflexivity.
Qed.

Lemma listed_sorted (rows : list Db.Observation) (out : list Js.value) :
  Forall2 (fun r o => exists fs, o = listed fs r) rows out ->
  StronglySorted Db.not_older rows ->
  StronglySorted (fun a b => String.leb (createdAt_of b) (createdAt_of a) = true) out.
Proof.
  induction 1 as [| r o rows out [fs ->] Hrest IH]; intros Hs; [constructor |].
  apply StronglySorted_inv in Hs as [Hs Hr].
  constructor; [apply IH; exact Hs |].
  clear IH Hs. induction Hrest as [| r' o' rows out [fs' ->] _ IH]; [constructor |].
  apply Forall_cons in Hr as [Hr' Hr].
  constructor; [exact Hr' | apply IH; exact Hr].
Qed.

(** The part of C6 that holds whatever is asked for: a listing that is
    answered runs from the most recent [createdAt] to the oldest. *)
Lemma listing_newest_first (query_limit : option string) (db : Db.table)
    (out : list Js.value) :
  observations_of (get_observations rt query_limit db) = Some out ->
  StronglySorted (fun a b => String.leb (createdAt_of b) (createdAt_of a) = true) out.
Proof.
  intros H. destruct (listing_inv query_limit db out H) as (k & _ & Hout).
  eapply listed_sorted; [exact Hout |]. apply limit_sorted, order_by_sorted.
Qed.

Lemma as_integer_min_200 (n : Js.number) (k : Z) :
  Db.as_integer (Js.Math_min n (Js.Finite 200)) = Some k -> (k <= 200)%Z.
Proof.
  destruct n as [ | [|] | q]; cbn [Js.Math_min Db.as_integer]; try discriminate.
  - intros [= <-]. vm_compute. discriminate.
  - destruct (Qle_bool q 200) eqn:Hle; cbn [Db.as_integer].
    + destruct (_ && _)%bool; [| discriminate]. intros [= <-].
      apply Qle_bool_iff in Hle. unfold Qle in Hle. cbn in Hle.
      apply Z.div_le_upper_bound; lia.
    + intros [= <-]. vm_compute. discriminate.
Qed.

Lemma as_integer_nonnegative (n : Js.number) (k : Z) :
  Js.lt n zero = false ->
  Db.as_integer (Js.Math_min n (Js.Finite 200)) = Some k -> (0 <= k)%Z.
Proof.
  destruct n as [ | [|] | q]; cbn [Js.Math_min Db.as_integer Js.lt]; try discriminate.
  - intros _ [= <-]. vm_compute. discriminate.
  - intros Hq. apply negb_false_iff, Qle_bool_iff in Hq. unfold Qle in Hq. cbn in Hq.
    destruct (Qle_bool q 200); cbn [Db.as_integer].
    + destruct (_ && _)%bool; [| discriminate]. intros [= <-].
      apply Z.div_pos; lia.
    + intros [= <-]. vm_compute. discriminate.
Qed.

(** The part of C6 that holds for a limit that is not negative, however
    large: the listing has at most 200 observations. *)
Lemma listing_capped_for_nonnegative_limit (query_limit : option string) (db : Db.table)
    (out : list Js.value) :
  Js.lt (requested_limit rt query_limit) zero = false ->
  observations_of (get_observations rt query_limit db) = Some out ->
  length out <= Spec.cap.
Proof.
  intros Hnn H. destruct (listing_inv query_limit db out H) as (k & Hk & Hout).
  apply Forall2_length in Hout. rewrite <- Hout.
  pose proof (as_integer_min_200 _ _ Hk) as Hhi.
  pose proof (as_integer_nonnegative _ _ Hnn Hk) as Hlo.
  pose proof (limit_length k (Db.order_by_created_at_desc db) Hlo) as Hlen.
  unfold Spec.cap. lia.
Qed.

(** C6, where the code departs from it: a query string that [Number] reads
    as a negative integer above [-2^63] passes [Math.min(..., 200)]
    unchanged, [LIMIT] takes a negative bound as no bound, and the listing
    holds every row of the table, however many. *)
Theorem listing_unbounded_for_negative_limit (query : string) (k : Z) (db : Db.table) :
  query <> EmptyString ->
  Js.StringToNumber rt query = Js.Finite (inject_Z k) ->
  (- 2 ^ 63 < k < 0)%Z ->
  Forall (fun r => Js.JSON_parse rt (Db.features_json r) <> None) db ->
  exists out : list Js.value,
    observations_of (get_observations rt (Some query) db) = Some out
    /\ length out = length db.
Proof.
  intros Hq Hnum Hk Hparse.
  unfold get_observations, requested_limit, Db.select_recent. cbv zeta.
  apply String.eqb_neq in Hq. rewrite Hq, Hnum.
  assert (Hmin : Js.Math_min (Js.Finite (inject_Z k)) (Js.Finite 200)
                 = Js.Finite (inject_Z k)).
  { cbn [Js.Math_min].
    assert (Hle : Qle_bool (inject_Z k) 200 = true).
    { apply Qle_bool_iff. unfold Qle. cbn. lia. }
    rewrite Hle. reflexivity. }
  rewrite Hmin.
  assert (Hint : Db.as_integer (Js.Finite (inject_Z k)) = Some k).
  { unfold Db.as_integer. cbn [Qnum Qden inject_Z].
    rewrite Z.mod_1_r, Z.div_1_r. cbn [Z.eqb andb].
    destruct (Z.ltb_spec (- 2 ^ 63) k); [| lia].
    destruct (Z.ltb_spec k (2 ^ 63)); [reflexivity | lia]. }
  rewrite Hint. cbn [mbind option_bind].
  unfold Db.limit. destruct (Z.ltb_spec k 0); [| lia].
  destruct (mapM _ (Db.order_by_created_at_desc db)) as [out |] eqn:Hm.
  - exists out. split; [reflexivity |].
    apply length_mapM in Hm. rewrite <- Hm. apply order_by_length.
  - exfalso. apply mapM_None_1, Exists_exists in Hm. destruct Hm as (r & Hr & Hnone).
    apply (order_by_elements _ db) in Hparse.
    rewrite Forall_forall in Hparse. specialize (Hparse r Hr).
    destruct (Js.JSON_parse rt (Db.features_json r)); [discriminate Hnone | now apply Hparse].
Qed.

End ListingClaims.

(** With 201 rows in the table, [GET /api/observations?limit=-1] lists 201
    observations, one more than the cap; [limit=1000] lists 200. *)
Lemma listing_unbounded_for_negative_limit_witness :
  (exists out : list Js.value,
     Backend.observations_of
       (Backend.get_observations Sample.runtime (Some "-1") (Sample.rows 201)) = Some out
     /\ length out = length (Sample.rows 201))
  /\ length (Sample.rows 201) = 201
  /\ Spec.cap < 201.
Proof.
  split; [| split; [reflexivity | unfold Spec.cap; lia]].
  apply (listing_unbounded_for_negative_limit Sample.runtime "-1" (-1) (Sample.rows 201)).
  - discriminate.
  - reflexivity.
  - lia.
  - apply Forall_forall. intros r Hr. apply list_elem_of_In, in_map_iff in Hr.
    destruct Hr as (i & <- & _). discriminate.
Defined.

(** At [-2^63] itself the bound is no integer for SQLite: the statement
    throws and nothing is listed.  At [-2^63 + 1024], the next number up that
    JavaScript has, every row is listed again. *)
Example listing_of_the_smallest_integer :
  Backend.get_observations Sample.runtime (Some "-9223372036854775808") (Sample.rows 201)
  = Backend.uncaught_exception
  /\ option_map (@length Js.value)
       (Backend.observations_of
          (Backend.get_observations Sample.runtime (Some "-9223372036854774784")
             (Sample.rows 201)))
     = Some 201.
Proof. split; vm_compute; reflexivity. Qed.

Example listing_of_a_large_limit :
  option_map (@length Js.value)
    (Backend.observations_of
       (Backend.get_observations Sample.runtime (Some "1000") (Sample.rows 201)))
  = Some 200.
Proof. vm_compute. reflexivity. Qed.


(** ** The canonical form *)

Section Canonical.
Variable rt : Js.Runtime.

(** The client's canonical form reads the features only through what each
    serialises to. *)
Lemma canonical_features_ext (lat lng : Js.number) (timestamp : string)
    (fs1 fs2 : list Js.value) :
  map (fun v => default "null" (Js.SerializeJSONProperty rt v)) fs1
  = map (fun v => default "null" (Js.SerializeJSONProperty rt v)) fs2 ->
  Frontend.canonical rt lat lng timestamp fs1 = Frontend.canonical rt lat lng timestamp fs2.
Proof.
  intros H. unfold Frontend.canonical, Js.stringify_object, Js.SerializeJSONObject.
  rewrite !omap_cons. cbn [Js.SerializeJSONProperty fmap option_fmap option_map].
  unfold Js.SerializeJSONArray. rewrite H. reflexivity.
Qed.

(** A property holding [undefined] does not show in the canonical form. *)
Lemma canonical_skips_undefined (lat lng : Js.number) (timestamp : string)
    (before after : list Js.value) (held held' : list (string * Js.value)) (k : string) :
  Frontend.canonical rt lat lng timestamp
    (before ++ Js.Obj (held ++ (k, Js.Undefined) :: held') :: after)
  = Frontend.canonical rt lat lng timestamp (before ++ Js.Obj (held ++ held') :: after).
Proof.
  apply canonical_features_ext. rewrite !map_app. cbn [map]. do 2 f_equal.
  cbn [Js.SerializeJSONProperty]. do 2 f_equal.
  apply (stringify_object_skips_undefined rt).
Qed.

(** The server's canonical form is the client's over the objects the schema
    has rebuilt. *)
Lemma server_canonical_unfold (d : Backend.Observation) :
  Backend.canonical rt d
  = Frontend.canonical rt (Backend.lat d) (Backend.lng d) (Backend.timestamp d)
      (map Backend.feature_object (Backend.features d)).
Proof. reflexivity. Qed.

End Canonical.

Section CanonicalClaims.

(** C7: in the canonical form a feature is written with the properties it
    holds a value for and nothing else.  A property holding [undefined],
    wherever it stands in a feature and whatever its name, leaves the
    canonical form, and with it the digest, what they are without it; and a
    feature the server has parsed is written as its [type], then its
    [confidence] if it has one, then its [bbox] if it has one, with no
    marker for the ones it lacks. *)
Theorem absent_fields_leave_no_trace (rt : Js.Runtime) (lat lng : Js.number)
    (timestamp : string) (before after : list Js.value)
    (held held' : list (string * Js.value)) (k : string) :
  Frontend.canonical rt lat lng timestamp
    (before ++ Js.Obj (held ++ (k, Js.Undefined) :: held') :: after)
  = Frontend.canonical rt lat lng timestamp (before ++ Js.Obj (held ++ held') :: after)
  /\ Frontend.sha256Hex rt
       (Frontend.canonical rt lat lng timestamp
          (before ++ Js.Obj (held ++ (k, Js.Undefined) :: held') :: after))
     = Frontend.sha256Hex rt
         (Frontend.canonical rt lat lng timestamp (before ++ Js.Obj (held ++ held') :: after))
  /\ forall f : Backend.Feature,
       Js.SerializeJSONProperty rt (Backend.feature_object f)
       = Some ("{" +:+ String.concat ","
                 ([Js.QuoteJSONString "type" +:+ ":" +:+ Js.QuoteJSONString (Backend.type f)]
                  ++ match Backend.confidence f with
                     | Some c =>
                         [Js.QuoteJSONString "confidence" +:+ ":"
                          +:+ default "null" (Js.SerializeJSONProperty rt (Js.Num c))]
                     | None => []
                     end
                  ++ match Backend.bbox f with
                     | Some b =>
                         [Js.QuoteJSONString "bbox" +:+ ":"
                          +:+ Js.stringify_array rt
                                (match b with
                                 | (x, y, w, h) => [Js.Num x; Js.Num y; Js.Num w; Js.Num h]
                                 end)]
                     | None => []
                     end)
               +:+ "}").
Proof.
  pose proof (canonical_skips_undefined rt lat lng timestamp before after held held' k)
    as Hcanon.
  split; [exact Hcanon |]. split; [now rewrite Hcanon |].
  intros [t [c |] [[[[x y] w] h] |]]; cbn [Backend.feature_object Backend.type
    Backend.confidence Backend.bbox Backend.number_tuple4 app];
    try (destruct c as [ | neg | q]); reflexivity.
Qed.

(** The pair of the specification: [{ type: "a" }] and
    [{ type: "a", confidence: undefined }]. *)
Example feature_a_either_way (rt : Js.Runtime) (lat lng : Js.number) (timestamp : string) :
  Frontend.canonical rt lat lng timestamp [Sample.feature_a_undefined]
  = Frontend.canonical rt lat lng timestamp [Sample.feature_a]
  /\ Js.JSON_stringify rt Sample.feature_a_undefined
     = Some ("{" +:+ Js.QuoteJSONString "type" +:+ ":" +:+ Js.QuoteJSONString "a" +:+ "}").
Proof.
  split; [| reflexivity].
  apply (canonical_skips_undefined rt lat lng timestamp [] []
           [("type", Js.Str "a")] [] "confidence").
Qed.

End CanonicalClaims.


(** ** From the client to the server *)

Section Transport.
Import Backend.

Lemma json_image_defined (v : Js.value) : v <> Js.Undefined -> Js.json_image v <> Js.Undefined.
Proof. destruct v as [ | | | [ | | ] | | | ]; cbn; congruence. Qed.

(** An object that has crossed as JSON holds no [undefined]. *)
Lemma image_props_defined (ps : list (string * Js.value)) (props : list (string * Js.value)) :
  Js.json_image (Js.Obj ps) = Js.Obj props ->
  Forall (fun kv => snd kv <> Js.Undefined) props.
Proof.
  cbn [Js.json_image]. intros [= <-].
  induction ps as [| [k v] ps IH]; [constructor |].
  rewrite omap_cons.
  destruct v; try exact IH; (constructor; [cbn; try discriminate | exact IH]).
  destruct n; discriminate.
Qed.

Lemma z_number_inv (v : Js.value) (n : Js.number) : z_number v = Some n -> v = Js.Num n.
Proof.
  destruct v as [ | | | [ | | ] | | | ]; unfold z_number; intros H;
    try discriminate H; injection H as <-; reflexivity.
Qed.

Lemma confidence_inv (v : Js.value) (c : Js.number) :
  z_max one (z_min zero z_number) v = Some c -> v = Js.Num c.
Proof.
  unfold z_max, z_min.
  destruct (z_number v) as [n |] eqn:Hn; cbn [mbind option_bind]; [| discriminate].
  apply z_number_inv in Hn as ->.
  destruct (Js.lt n zero); cbn [mbind option_bind]; [discriminate |].
  destruct (Js.lt one n); congruence.
Qed.

Lemma bbox_inv (v : Js.value) (b : Js.number * Js.number * Js.number * Js.number) :
  z_tuple4 z_number v = Some b -> v = number_tuple4 b.
Proof.
  unfold z_tuple4.
  destruct v as [ | | | | | [| x [| y [| w [| h [| ? ?]]]]] | ]; try discriminate.
  destruct (z_number x) as [x' |] eqn:Hx; cbn; [| discriminate].
  destruct (z_number y) as [y' |] eqn:Hy; cbn; [| discriminate].
  destruct (z_number w) as [w' |] eqn:Hw; cbn; [| discriminate].
  destruct (z_number h) as [h' |] eqn:Hh; cbn; [| discriminate].
  intros [= <-]. apply z_number_inv in Hx as ->, Hy as ->, Hw as ->, Hh as ->.
  reflexivity.
Qed.

Lemma optional_inv {A} (p : Js.value -> option A) (v : Js.value) (r : option A) :
  v <> Js.Undefined -> z_optional p v = Some r -> exists a, r = Some a /\ p v = Some a.
Proof.
  intros Hv. destruct v; try congruence; cbn; destruct (p _) as [a |]; cbn;
    try discriminate; intros [= <-]; exists a; split; reflexivity.
Qed.

End Transport.

Section Rebuild.
Import Backend.

(** The key lists that are some of the schema's keys in the schema's
    order. *)
Lemma schema_ordered_keys (ks : list string) :
  Js.subsequence ks Frontend.schema_keys = true ->
  In ks [[]; ["type"]; ["confidence"]; ["bbox"]; ["type"; "confidence"]; ["type"; "bbox"];
         ["confidence"; "bbox"]; ["type"; "confidence"; "bbox"]].
Proof.
  unfold Frontend.schema_keys.
  destruct ks as [| k1 [| k2 [| k3 [| k4 ks]]]]; cbn [Js.subsequence]; intros H;
    repeat match type of H with
           | context [String.eqb ?k ?s] =>
               destruct (String.eqb_spec k s); [subst k |]; cbn [Js.subsequence] in H
           end;
    try discriminate H; cbn [In]; tauto.
Qed.

(** A feature object that holds no [undefined] and lists some of the
    schema's keys in the schema's order is rebuilt by the schema as it
    was. *)
Lemma feature_rebuilt (props : list (string * Js.value)) (f : Feature) :
  FeatureSchema (Js.Obj props) = Some f ->
  Js.subsequence (map fst props) Frontend.schema_keys = true ->
  Forall (fun kv => snd kv <> Js.Undefined) props ->
  feature_object f = Js.Obj props.
Proof.
  intros Hf Hks Hdef. apply schema_ordered_keys in Hks. cbn [In] in Hks.
  unfold FeatureSchema in Hf.
  destruct Hks as [Hk | [Hk | [Hk | [Hk | [Hk | [Hk | [Hk | [Hk | []]]]]]]]];
    destruct props as [| [k1 v1] [| [k2 v2] [| [k3 v3] [| [k4 v4] rest]]]];
    cbn [map fst] in Hk; simplify_eq;
    cbn [Js.get String.eqb Ascii.eqb Bool.eqb] in Hf; cbn in Hf; try discriminate Hf.
  all: repeat match goal with
              | H : Forall _ (_ :: _) |- _ => apply Forall_cons in H as [? H]
              end; cbn [snd] in *.
  - destruct v1; try discriminate Hf. cbn in Hf. injection Hf as <-. reflexivity.
  - destruct v1; try discriminate Hf. cbn [z_string mbind option_bind] in Hf.
    destruct (z_optional _ v2) as [c |] eqn:Hc; [| discriminate Hf].
    cbn in Hf. injection Hf as <-.
    apply optional_inv in Hc as (c' & -> & Hc); [| assumption].
    apply confidence_inv in Hc as ->. reflexivity.
  - destruct v1; try discriminate Hf. cbn [z_string mbind option_bind] in Hf.
    destruct (z_optional _ v2) as [b |] eqn:Hb; [| discriminate Hf].
    cbn in Hf. injection Hf as <-.
    apply optional_inv in Hb as (b' & -> & Hb); [| assumption].
    apply bbox_inv in Hb as ->. reflexivity.
  - destruct v1; try discriminate Hf. cbn [z_string mbind option_bind] in Hf.
    destruct (z_optional _ v2) as [c |] eqn:Hc; [| discriminate Hf].
    cbn [mbind option_bind] in Hf.
    destruct (z_optional _ v3) as [b |] eqn:Hb; [| discriminate Hf].
    cbn in Hf. injection Hf as <-.
    apply optional_inv in Hc as (c' & -> & Hc); [| assumption].
    apply optional_inv in Hb as (b' & -> & Hb); [| assumption].
    apply confidence_inv in Hc as ->. apply bbox_inv in Hb as ->. reflexivity.
Qed.

End Rebuild.

Section Agreement.
Import Backend.
Variable rt : Js.Runtime.

(** For a feature in schema order, what the schema rebuilds from what has
    crossed serialises as the feature the client holds. *)
Lemma rebuilt_feature_serialises_alike (x : Js.value) (f : Feature) :
  FeatureSchema (match x with Js.Undefined => Js.Null | _ => Js.json_image x end) = Some f ->
  Frontend.schema_ordered x = true ->
  Js.SerializeJSONProperty rt (feature_object f) = Js.SerializeJSONProperty rt x.
Proof.
  intros Hf Hord.
  destruct x as [ | | | [ | | ] | | | ps]; try discriminate Hf.
  unfold Frontend.schema_ordered in Hord.
  destruct (Js.json_image (Js.Obj ps)) as [ | | | | | | props] eqn:Himg;
    try discriminate Himg.
  cbn [Js.keys] in Hord.
  rewrite (feature_rebuilt props f Hf Hord (image_props_defined ps props Himg)).
  rewrite <- Himg. apply serialize_json_image.
Qed.

Lemma rebuilt_features_serialise_alike (features : list Js.value) (fs : list Feature) :
  mapM FeatureSchema
    (map (fun item => match item with
                      | Js.Undefined => Js.Null
                      | _ => Js.json_image item
                      end) features) = Some fs ->
  forallb Frontend.schema_ordered features = true ->
  map (fun v => default "null" (Js.SerializeJSONProperty rt v)) (map feature_object fs)
  = map (fun v => default "null" (Js.SerializeJSONProperty rt v)) features.
Proof.
  intros Hm. apply mapM_Some_1 in Hm.
  revert fs Hm. induction features as [| x features IH]; intros fs Hm Hord.
  - inversion Hm. reflexivity.
  - cbn [map] in Hm. inversion Hm as [| y f ys fs' Hf Hrest]; subst.
    cbn [forallb] in Hord. apply andb_true_iff in Hord as [Hx Hord].
    cbn [map]. f_equal.
    + now rewrite (rebuilt_feature_serialises_alike x f Hf Hx).
    + apply IH; assumption.
Qed.

End Agreement.

(** ** The features the form builds *)

Section Form.
Import Frontend.

Lemma form_feature_spread_type (f : Js.value) (text : string) :
  form_feature f -> form_feature (spread f [("type", Js.Str text)]).
Proof.
  intros (t & c & -> & Hc). exists text, c. split; [reflexivity | exact Hc].
Qed.

Lemma form_feature_spread_confidence (f : Js.value) (entered : option Js.number) :
  form_feature f ->
  form_feature
    (spread f [("confidence", match entered with
                              | Some n => Js.Num n
                              | None => Js.Undefined
                              end)]).
Proof.
  intros (t & c & -> & _). eexists t, _. split; [reflexivity |].
  destruct entered as [n |]; [right; exists n; reflexivity | left; reflexivity].
Qed.

Lemma updateFeature_from_form (idx i : nat) (patch : list (string * Js.value))
    (prev : list Js.value) :
  (forall f, form_feature f -> form_feature (spread f patch)) ->
  Forall form_feature prev -> Forall form_feature (updateFeature_from idx i patch prev).
Proof.
  intros Hpatch Hprev. revert idx.
  induction Hprev as [| f prev Hf _ IH]; intros idx; cbn [updateFeature_from];
    constructor; [destruct (Nat.eqb idx i); auto | apply IH].
Qed.

Lemma removeFeature_from_form (idx i : nat) (prev : list Js.value) :
  Forall form_feature prev -> Forall form_feature (removeFeature_from idx i prev).
Proof.
  intros Hprev. revert idx.
  induction Hprev as [| f prev Hf _ IH]; intros idx; cbn [removeFeature_from];
    [constructor |].
  destruct (Nat.eqb idx i); [apply IH | constructor; [exact Hf | apply IH]].
Qed.

Lemma apply_edit_form (prev : list Js.value) (e : Edit) :
  Forall form_feature prev -> Forall form_feature (apply_edit prev e).
Proof.
  intros Hprev. destruct e as [| i | i text | i entered]; cbn [apply_edit].
  - apply Forall_app. split; [exact Hprev |]. constructor; [| constructor].
    eexists _, _. split; [reflexivity |]. right. eexists. reflexivity.
  - apply removeFeature_from_form, Hprev.
  - apply updateFeature_from_form; [| exact Hprev].
    intros f. apply form_feature_spread_type.
  - apply updateFeature_from_form; [| exact Hprev].
    intros f. apply form_feature_spread_confidence.
Qed.

(** Whatever the user does, every feature of the form is an object
    [{ type, confidence }] in this order. *)
Lemma features_after_form (edits : list Edit) :
  Forall form_feature (features_after edits).
Proof.
  unfold features_after.
  assert (Hinit : Forall form_feature initial_features).
  { repeat constructor; eexists _, _; (split; [reflexivity |]); right; eexists; reflexivity. }
  revert Hinit. generalize initial_features as fs.
  induction edits as [| e edits IH]; intros fs Hfs; cbn [fold_left]; [exact Hfs |].
  apply IH, apply_edit_form, Hfs.
Qed.

Lemma form_feature_schema_ordered (f : Js.value) :
  form_feature f -> schema_ordered f = true.
Proof.
  intros (t & c & -> & [-> | (n & ->)]); [reflexivity |].
  destruct n; reflexivity.
Qed.

Lemma features_after_schema_ordered (edits : list Edit) :
  forallb schema_ordered (features_after edits) = true.
Proof.
  apply forallb_forall. intros f Hf.
  apply form_feature_schema_ordered.
  pose proof (features_after_form edits) as H. rewrite Forall_forall in H.
  apply H, list_elem_of_In, Hf.
Qed.

End Form.

Section AgreementClaims.
Import Backend.

(** C8, as written, on the example with the feature's two properties in the
    other order: the payload passes the schema, the server canonicalises the
    object the schema has rebuilt in its own key order, and the two canonical
    forms differ; with them the digests, so that the server answers a
    mismatch to the digest the client derived. *)
Lemma canonical_forms_differ_for_another_key_order :
  let client :=
    Frontend.canonical Sample.runtime Sample.example_lat Sample.example_lng
      Sample.example_timestamp [Sample.pothole_confidence_first] in
  let body :=
    Frontend.request_body Sample.example_lat Sample.example_lng Sample.example_timestamp
      [Sample.pothole_confidence_first] (Frontend.sha256Hex Sample.runtime client) in
  exists d : Observation,
    ObservationSchema body = Some d
    /\ canonical Sample.runtime d <> client
    /\ canonical Sample.runtime d = Sample.example_canonical
    /\ sha256Hex Sample.runtime (canonical Sample.runtime d)
       <> Frontend.sha256Hex Sample.runtime client
    /\ response (post_observations Sample.runtime Sample.clock body [])
       = json 400 (Js.Obj [("ok", Js.Bool false); ("error", Js.Str hash_mismatch_message)]).
Proof.
  cbv zeta. eexists. split; [vm_compute; reflexivity |].
  split; [vm_compute; discriminate |].
  split; [vm_compute; reflexivity |].
  split; [vm_compute; discriminate |].
  vm_compute. reflexivity.
Qed.

(** The same happens for a feature that holds a property the schema does not
    name: the schema drops it before the server canonicalises. *)
Example canonical_forms_differ_for_an_unnamed_key :
  exists d : Observation,
    ObservationSchema
      (Frontend.request_body Sample.example_lat Sample.example_lng Sample.example_timestamp
         [Sample.pothole_with_note] Sample.all_zero_digest) = Some d
    /\ canonical Sample.runtime d
       <> Frontend.canonical Sample.runtime Sample.example_lat Sample.example_lng
            Sample.example_timestamp [Sample.pothole_with_note].
Proof. eexists. split; [vm_compute; reflexivity | vm_compute; discriminate]. Qed.

(** C8 (amended): for every observation whose feature objects hold, apart
    from properties set to [undefined], some of the properties [type],
    [confidence], [bbox] in this order, and whose payload passes the schema,
    the canonical form the server derives is the canonical form the client
    derived, character for character, and the two [sha256Hex] functions give
    the same digest for it.  Every feature list the client's form can hold
    is of that kind. *)
Theorem canonical_forms_agree (rt : Js.Runtime) (lat lng : Js.number) (timestamp : string)
    (features : list Js.value) (claimed : string) (d : Observation) :
  ObservationSchema (Frontend.request_body lat lng timestamp features claimed) = Some d ->
  forallb Frontend.schema_ordered features = true ->
  canonical rt d = Frontend.canonical rt lat lng timestamp features
  /\ sha256Hex rt (canonical rt d)
     = Frontend.sha256Hex rt (Frontend.canonical rt lat lng timestamp features)
  /\ forall edits : list Frontend.Edit,
       forallb Frontend.schema_ordered (Frontend.features_after edits) = true.
Proof.
  intros Hd Hord.
  assert (Hcanon : canonical rt d = Frontend.canonical rt lat lng timestamp features).
  { apply ObservationSchema_accepts in Hd
      as (props & Hbody & Hlat & Hlng & Hts & Hfs & _ & _).
    unfold Frontend.request_body, Frontend.submission in Hbody.
    cbn [Js.json_image] in Hbody. rewrite !omap_cons in Hbody. cbv beta iota in Hbody.
    injection Hbody as <-.
    cbn [Js.get String.eqb Ascii.eqb Bool.eqb] in Hlat, Hlng, Hts, Hfs.
    rewrite server_canonical_unfold.
    destruct lat as [ | ? | ql]; try discriminate Hlat.
    destruct lng as [ | ? | qg]; try discriminate Hlng.
    cbn [Js.json_image] in Hlat, Hlng, Hts, Hfs.
    injection Hlat as <-. injection Hlng as <-. injection Hts as <-.
    apply canonical_features_ext.
    apply rebuilt_features_serialise_alike; [exact Hfs | exact Hord]. }
  split; [exact Hcanon |].
  split; [| apply features_after_schema_ordered].
  rewrite Hcanon. symmetry. apply sha256Hex_client_server.
Qed.

Lemma canonical_forms_agree_witness :
  forallb Frontend.schema_ordered [Sample.pothole] = true
  /\ exists d : Observation,
       ObservationSchema Sample.honest_body = Some d
       /\ canonical Sample.runtime d = Sample.example_canonical
       /\ sha256Hex Sample.runtime (canonical Sample.runtime d) = Sample.example_digest.
Proof.
  split; [reflexivity |].
  destruct (ObservationSchema Sample.honest_body) as [d |] eqn:Hd;
    [| vm_compute in Hd; discriminate Hd].
  exists d. split; [reflexivity |].
  destruct (canonical_forms_agree Sample.runtime Sample.example_lat Sample.example_lng
              Sample.example_timestamp [Sample.pothole] Sample.example_digest d Hd eq_refl)
    as (Hc & Hh & _).
  split; [exact Hc | exact Hh].
Defined.

End AgreementClaims.


(** ** A run of the registry *)

Section RegistryRun.
Import AnchorRegistry RegistrySpec.

(** Anchoring 5 twice, reading it, and anchoring the empty hash. *)
Example a_short_history :
  map snd
    (history [call_isAnchored 5%N; call_anchor alice_at_100 5%N; call_anchor bob_at_200 5%N;
              call_isAnchored 5%N; call_anchor bob_at_200 0%N] genesis)
  = [Returned_bool false; Returned_unit; Failed "ALREADY_ANCHORED"; Returned_bool true;
     Failed "EMPTY_HASH"]
  /\ logs (run [call_isAnchored 5%N; call_anchor alice_at_100 5%N;
                call_anchor bob_at_200 5%N; call_isAnchored 5%N;
                call_anchor bob_at_200 0%N] genesis)
     = [Anchored 5%N 10%N 100%N].
Proof. split; vm_compute; reflexivity. Qed.

End RegistryRun.


(** * Further properties *)

(** ** The registry: what a run keeps true *)

Section RegistryInvariants.
Import AnchorRegistry RegistrySpec RegistryLog.

Lemma mentions_app (ds ds' : list bytes32) (d : bytes32) :
  mentions (ds ++ ds') d = mentions ds d || mentions ds' d.
Proof. unfold mentions. rewrite existsb_app. reflexivity. Qed.

Lemma mentions_false (ds : list bytes32) (d : bytes32) :
  mentions ds d = false -> d ∉ ds.
Proof.
  unfold mentions. intros H Hin. apply list_elem_of_In in Hin.
  assert (Ht : existsb (N.eqb d) ds = true).
  { apply existsb_exists. exists d. split; [exact Hin | apply N.eqb_refl]. }
  congruence.
Qed.

Lemma consistent_genesis : consistent genesis.
Proof.
  split; [intros d; reflexivity |]. split; [constructor | constructor].
Qed.

Lemma consistent_step (w : World) (c : Call) : consistent w -> consistent (fst (step w c)).
Proof.
  intros (Hflags & Hnodup & Hnz).
  destruct c as [env hash | hash]; [| rewrite isAnchored_cases; repeat split; assumption].
  rewrite anchor_cases.
  destruct (N.eqb_spec hash 0) as [-> | Hhash]; [repeat split; assumption |].
  destruct (anchored w hash) eqn:Ha; [repeat split; assumption |].
  cbn [fst]. unfold consistent, logged in *. cbn [logs].
  rewrite List.map_app. cbn [map event_hash].
  split; [| split].
  - intros d. rewrite anchored_after_write, mentions_app, Hflags.
    cbn [mentions existsb]. rewrite orb_false_r, (N.eqb_sym d hash). reflexivity.
  - apply NoDup_app. split; [exact Hnodup |]. split; [| apply NoDup_singleton].
    intros d Hd Hd'. apply list_elem_of_singleton in Hd' as ->.
    rewrite Hflags in Ha. apply mentions_false in Ha. contradiction.
  - apply Forall_app. split; [exact Hnz |]. constructor; [exact Hhash | constructor].
Qed.

Lemma consistent_run (cs : list Call) (w : World) : consistent w -> consistent (run cs w).
Proof.
  revert w. induction cs as [| c cs IH]; intros w Hw; cbn [run]; [exact Hw |].
  apply IH, consistent_step, Hw.
Qed.

Lemma consistent_reachable (cs : list Call) : consistent (run cs genesis).
Proof. apply consistent_run, consistent_genesis. Qed.

Lemma step_extends_log (w : World) (c : Call) : logs w `prefix_of` logs (fst (step w c)).
Proof.
  destruct c as [env hash | hash]; [| rewrite isAnchored_cases; reflexivity].
  rewrite anchor_cases.
  destruct (hash =? 0)%N; [reflexivity |].
  destruct (anchored w hash); [reflexivity |]. cbn [fst logs]. apply prefix_app_r. reflexivity.
Qed.

End RegistryInvariants.

Section RegistryExtras.
Import AnchorRegistry RegistrySpec RegistryLog RegistryCalls.

(** X1: in every world reached from the deployed contract, the flag of a
    digest is set exactly when the log holds an [Anchored] event for it, and
    the log holds at most one event for a digest. *)
Theorem flags_match_the_log (cs : list Call) (d : bytes32) :
  anchored (run cs genesis) d = mentions (logged (run cs genesis)) d
  /\ NoDup (logged (run cs genesis)).
Proof.
  destruct (consistent_reachable cs) as (Hflags & Hnodup & _).
  split; [apply Hflags | exact Hnodup].
Qed.

(** X2: the empty hash is never anchored: in every world reached from the
    deployed contract its flag is false and no event of the log is about
    it. *)
Theorem empty_hash_never_anchored (cs : list Call) :
  anchored (run cs genesis) 0%N = false
  /\ mentions (logged (run cs genesis)) 0%N = false.
Proof.
  destruct (consistent_reachable cs) as (Hflags & _ & Hnz).
  assert (Hm : mentions (logged (run cs genesis)) 0%N = false).
  { destruct (mentions _ 0%N) eqn:Hm; [| reflexivity].
    unfold mentions in Hm. apply existsb_exists in Hm as (d & Hd & Heq).
    apply N.eqb_eq in Heq as <-.
    rewrite Forall_forall in Hnz. exfalso.
    apply (Hnz 0%N); [apply list_elem_of_In; exact Hd | reflexivity]. }
  split; [rewrite Hflags |]; exact Hm.
Qed.

Lemma run_extends_log (cs : list Call) (w : World) : logs w `prefix_of` logs (run cs w).
Proof.
  revert w. induction cs as [| c cs IH]; intros w; cbn [run]; [reflexivity |].
  etransitivity; [apply step_extends_log | apply IH].
Qed.

Lemma one_event_per_hash (l : list Event) (e e' : Event) :
  NoDup (map event_hash l) -> In e l -> In e' l -> event_hash e' = event_hash e -> e' = e.
Proof.
  induction l as [| x l IH]; cbn [map In]; intros Hnd He He' Heq; [contradiction |].
  apply NoDup_cons in Hnd as [Hx Hnd].
  destruct He as [-> | He], He' as [-> | He']; [reflexivity | | | now apply IH].
  - exfalso. apply Hx. rewrite <- Heq. apply list_elem_of_In, in_map, He'.
  - exfalso. apply Hx. rewrite Heq. apply list_elem_of_In, in_map, He.
Qed.

(** X3: the record of a digest is permanent.  Whatever calls follow, the log
    only grows at its end, and an event about a digest that is in the log
    already is the only one there will ever be for it: its submitter and its
    timestamp are those of the first successful call. *)
Theorem first_anchor_stays_on_record (pre post : list Call) (e e' : Event) :
  In e (logs (run pre genesis)) ->
  In e' (logs (run (pre ++ post) genesis)) ->
  event_hash e' = event_hash e ->
  e' = e /\ logs (run pre genesis) `prefix_of` logs (run (pre ++ post) genesis).
Proof.
  intros He He' Heq.
  assert (Hpre : logs (run pre genesis) `prefix_of` logs (run (pre ++ post) genesis)).
  { rewrite run_app. apply run_extends_log. }
  split; [| exact Hpre].
  destruct (consistent_reachable (pre ++ post)) as (_ & Hnodup & _).
  apply (one_event_per_hash (logs (run (pre ++ post) genesis))); try assumption.
  destruct Hpre as [more ->]. apply in_or_app. left. exact He.
Qed.

Lemma first_anchor_stays_on_record_witness :
  Anchored 5%N 11%N 200%N = Anchored 5%N 11%N 200%N
  /\ logs (run [call_anchor bob_at_200 5%N] genesis)
     `prefix_of` logs (run ([call_anchor bob_at_200 5%N]
                            ++ [call_anchor alice_at_100 5%N; call_anchor alice_at_100 6%N])
                         genesis).
Proof.
  apply (first_anchor_stays_on_record [call_anchor bob_at_200 5%N]
           [call_anchor alice_at_100 5%N; call_anchor alice_at_100 6%N]).
  - left. reflexivity.
  - left. reflexivity.
  - reflexivity.
Defined.

Lemma step_concerning (w w' : World) (c : Call) (d : bytes32) :
  anchored w d = anchored w' d ->
  concerns d c = true ->
  anchored (fst (step w c)) d = anchored (fst (step w' c)) d.
Proof.
  intros Hagree Hc. destruct c as [env hash | hash]; [| discriminate Hc].
  cbn [concerns] in Hc. apply N.eqb_eq in Hc as ->.
  rewrite !step_anchored, Hagree, !anchor_cases, Hagree.
  destruct (d =? 0)%N; [reflexivity |]. destruct (anchored w' d); reflexivity.
Qed.

Lemma step_not_concerning (w : World) (c : Call) (d : bytes32) :
  concerns d c = false -> anchored (fst (step w c)) d = anchored w d.
Proof.
  intros Hc. rewrite step_anchored.
  destruct c as [env hash | hash]; cbn [is_successful_anchor concerns] in *.
  - destruct (snd _); rewrite ?Hc; apply orb_false_r.
  - apply orb_false_r.
Qed.

Lemma run_filtered (cs : list Call) (w w' : World) (d : bytes32) :
  anchored w d = anchored w' d ->
  anchored (run cs w) d = anchored (run (List.filter (concerns d) cs) w') d.
Proof.
  revert w w'. induction cs as [| c cs IH]; intros w w' Hagree; [exact Hagree |].
  cbn [run List.filter]. destruct (concerns d c) eqn:Hc.
  - cbn [run]. apply IH, step_concerning; assumption.
  - apply IH. rewrite step_not_concerning; assumption.
Qed.

(** X4: digests do not interfere.  After any calls, the flag of a digest is
    what it would be had only the [anchor] calls for this digest been made:
    calls about other digests, and reads, change nothing for it. *)
Theorem digests_are_independent (cs : list Call) (w : World) (d : bytes32) :
  anchored (run cs w) d = anchored (run (List.filter (concerns d) cs) w) d.
Proof. apply run_filtered. reflexivity. Qed.

End RegistryExtras.


(** ** The write path: what the table keeps true *)

Section StoreInvariants.
Import Backend Service.
Variable rt : Js.Runtime.

(** A request either leaves the table as it is or puts one row, with the
    request's id and creation time, at its end. *)
Lemma post_table_cases (clock : Clock) (body : Js.value) (db : Db.table) :
  db_after (post_observations rt clock body db) = db
  \/ exists d : Observation,
       ObservationSchema body = Some d
       /\ Js.toLowerCase (sha256Hex rt (canonical rt d)) = Js.toLowerCase (hashHex d)
       /\ existsb (fun r => String.eqb (Db.id r) (randomUUID clock)) db = false
       /\ db_after (post_observations rt clock body db)
          = db ++ [row_of rt clock d].
Proof.
  destruct (ObservationSchema body) as [d |] eqn:Hd;
    [| left; rewrite (post_invalid rt clock body db Hd); reflexivity].
  destruct (string_dec (Js.toLowerCase (sha256Hex rt (canonical rt d)))
                       (Js.toLowerCase (hashHex d))) as [He | Hne];
    [| left; rewrite (post_mismatch rt clock body db d Hd Hne); reflexivity].
  rewrite (post_match rt clock body db d Hd He). cbv zeta. unfold Db.insert. cbn [Db.id].
  destruct (existsb _ db) eqn:Hid; [left; reflexivity |].
  right. exists d. repeat split; assumption.
Qed.

(** A text in which the byte ED does not occur, an ASCII text for one, holds
    no lone surrogate and is stored as it is. *)
Lemma text_without_lead_byte (s : string) :
  forallb (fun c => negb (N_of_ascii c =? 237)%N) (list_ascii_of_string s) = true ->
  Db.text s = s.
Proof.
  unfold Db.text. induction s as [| c s IH]; [reflexivity |].
  cbn [list_ascii_of_string forallb]. rewrite andb_true_iff. intros [Hc Hs].
  apply negb_true_iff in Hc.
  assert (Hstep : Js.toWellFormed (String c s) = String c (Js.toWellFormed s)).
  { destruct s as [| c2 [| c3 rest]]; try reflexivity.
    cbn [Js.toWellFormed]. unfold Js.lone_surrogate. rewrite Hc. reflexivity. }
  rewrite Hstep, (IH Hs). reflexivity.
Qed.

(** The canonical form rebuilt from a row is the one that was hashed when
    the timestamp was stored as it came. *)
Lemma row_canonical_of_parsed (clock : Clock) (d : Observation) :
  Db.text (timestamp d) = timestamp d ->
  row_canonical rt (row_of rt clock d) = canonical rt d.
Proof.
  intros Hts. unfold row_canonical, row_of. cbn [Db.lat Db.lng Db.timestamp Db.features_json].
  rewrite Hts. destruct d as [[ | ? | ?] [ | ? | ?] ts fs h]; reflexivity.
Qed.

Lemma serve_verifiable (db : Db.table) (request : Clock * Js.value) :
  stored_as_sent (snd request) ->
  Forall (verifiable rt) db -> Forall (verifiable rt) (serve rt db request).
Proof.
  intros Hts Hdb. unfold serve.
  destruct (post_table_cases (fst request) (snd request) db)
    as [-> | (d & Hd & He & _ & ->)]; [exact Hdb |].
  apply Forall_app. split; [exact Hdb |]. constructor; [| constructor].
  unfold verifiable. rewrite (row_canonical_of_parsed _ _ (Hts d Hd)).
  cbn [row_of Db.hash_hex].
  rewrite <- He. apply sha256Hex_lowercase.
Qed.

Lemma serve_all_verifiable (requests : list (Clock * Js.value)) (db : Db.table) :
  Forall (fun request => stored_as_sent (snd request)) requests ->
  Forall (verifiable rt) db -> Forall (verifiable rt) (serve_all rt requests db).
Proof.
  unfold serve_all. intros Hreq. revert db.
  induction Hreq as [| request requests Hr _ IH]; intros db Hdb; cbn [fold_left];
    [exact Hdb | apply IH, serve_verifiable; assumption].
Qed.

Lemma serve_unique_ids (db : Db.table) (request : Clock * Js.value) :
  NoDup (map Db.id db) -> NoDup (map Db.id (serve rt db request)).
Proof.
  intros Hdb. unfold serve.
  destruct (post_table_cases (fst request) (snd request) db)
    as [-> | (d & _ & _ & Hfresh & ->)]; [exact Hdb |].
  rewrite List.map_app. cbn [map Db.id].
  apply NoDup_app. split; [exact Hdb |]. split; [| apply NoDup_singleton].
  intros i Hi Hi'. apply list_elem_of_singleton in Hi' as ->.
  apply list_elem_of_In, in_map_iff in Hi as (r & Hr & Hin).
  assert (Ht : existsb (fun r => String.eqb (Db.id r) (randomUUID (fst request))) db = true).
  { apply existsb_exists. exists r. split; [exact Hin | now apply String.eqb_eq]. }
  congruence.
Qed.

Lemma serve_extends (db : Db.table) (request : Clock * Js.value) :
  db `prefix_of` serve rt db request.
Proof.
  unfold serve.
  destruct (post_table_cases (fst request) (snd request) db)
    as [-> | (d & _ & _ & _ & ->)]; [reflexivity | apply prefix_app_r; reflexivity].
Qed.

Lemma serve_all_keeps (P : Db.table -> Prop) (requests : list (Clock * Js.value))
    (db : Db.table) :
  (forall t request, P t -> P (serve rt t request)) -> P db -> P (serve_all rt requests db).
Proof.
  intros Hstep. unfold serve_all. revert db.
  induction requests as [| request requests IH]; intros db Hdb; cbn [fold_left];
    [exact Hdb | apply IH, Hstep, Hdb].
Qed.

End StoreInvariants.

Section StoreExtras.
Import Backend Service.

(** X5: stored data matches what was hashed, as long as the timestamps are
    well-formed text.  After any series of submissions to an empty table in
    which no accepted payload has a lone surrogate in its timestamp (so that
    the timestamp is stored as it was sent), the digest of every row is,
    letter case aside, the SHA-256 digest of the canonical form rebuilt from
    the row's own columns: [lat], [lng], [timestamp] and [features_json]. *)
Theorem stored_rows_are_verifiable (rt : Js.Runtime) (requests : list (Clock * Js.value)) :
  Forall (fun request => stored_as_sent (snd request)) requests ->
  Forall (verifiable rt) (serve_all rt requests []).
Proof.
  intros Hreq. apply serve_all_verifiable; [exact Hreq | constructor].
Qed.

Lemma stored_rows_are_verifiable_witness :
  Forall (verifiable Sample.runtime)
    (serve_all Sample.runtime
       [(Sample.clock, Sample.capitals_body); (Sample.clock, Sample.tampered_body)] []).
Proof.
  apply (stored_rows_are_verifiable Sample.runtime
           [(Sample.clock, Sample.capitals_body); (Sample.clock, Sample.tampered_body)]).
  repeat constructor; intros d Hd; vm_compute in Hd; injection Hd as <-; reflexivity.
Defined.

(** A timestamp that holds a lone surrogate is accepted and hashed with the
    surrogate written as its escape, but stored with U+FFFD in its place: the
    row is kept, and its columns no longer lead back to its digest. *)
Example lone_surrogate_is_not_stored :
  let handled :=
    post_observations Sample.runtime Sample.clock Sample.lone_surrogate_body [] in
  hashed handled
  = ["{" +:+ Js.QuoteJSONString "lat" +:+ ":10.762622,"
         +:+ Js.QuoteJSONString "lng" +:+ ":106.660172,"
         +:+ Js.QuoteJSONString "timestamp" +:+ ":"
         +:+ String Js.dquote ("\ud800" +:+ String Js.dquote EmptyString)
         +:+ "," +:+ Js.QuoteJSONString "features" +:+ ":[]}"]
  /\ map Db.timestamp (db_after handled) = [Js.replacement_character]
  /\ ~ Forall (verifiable Sample.runtime) (db_after handled).
Proof.
  cbv zeta. split; [vm_compute; reflexivity |]. split; [vm_compute; reflexivity |].
  intros H. apply Forall_inv in H. vm_compute in H. discriminate H.
Qed.

(** X6: the write path is append-only.  A series of submissions leaves
    every row that was in the table where it was and as it was; rows are only
    ever added at the end, at most one a request. *)
Theorem table_is_append_only (rt : Js.Runtime) (requests : list (Clock * Js.value))
    (db : Db.table) :
  db `prefix_of` serve_all rt requests db
  /\ length (serve_all rt requests db) <= length db + length requests.
Proof.
  unfold serve_all. revert db.
  induction requests as [| request requests IH]; intros db; cbn [fold_left length].
  - split; [reflexivity | lia].
  - destruct (IH (serve rt db request)) as [Hpre Hlen].
    pose proof (serve_extends rt db request) as Hstep.
    split; [etransitivity; eassumption |].
    assert (Hone : length (serve rt db request) <= S (length db)).
    { unfold serve.
      destruct (post_table_cases rt (fst request) (snd request) db)
        as [-> | (d & _ & _ & _ & ->)]; [lia | rewrite length_app; cbn; lia]. }
    lia.
Qed.

(** X7: ids stay unique.  After any series of submissions to an empty
    table no two rows have the same id, even when [randomUUID] repeats
    itself. *)
Theorem ids_stay_unique (rt : Js.Runtime) (requests : list (Clock * Js.value)) :
  NoDup (map Db.id (serve_all rt requests [])).
Proof.
  apply (serve_all_keeps rt (fun t => NoDup (map Db.id t))); [| constructor].
  intros t request. apply serve_unique_ids.
Qed.

(** X8: a request whose id is taken stores nothing.  When a row with the id
    drawn for the request exists already, the table stays as it is and the
    answer is not a success, whatever the body. *)
Theorem taken_id_stores_nothing (rt : Js.Runtime) (clock : Clock) (body : Js.value)
    (db : Db.table) :
  In (randomUUID clock) (map Db.id db) ->
  db_after (post_observations rt clock body db) = db
  /\ forall answer : Js.value,
       response (post_observations rt clock body db) <> json 200 answer.
Proof.
  intros Hin.
  assert (Hex : existsb (fun r => String.eqb (Db.id r) (randomUUID clock)) db = true).
  { apply in_map_iff in Hin as (r & Hr & Hin).
    apply existsb_exists. exists r. split; [exact Hin | now apply String.eqb_eq]. }
  destruct (ObservationSchema body) as [d |] eqn:Hd;
    [| rewrite (post_invalid rt clock body db Hd); split; [reflexivity | discriminate]].
  destruct (string_dec (Js.toLowerCase (sha256Hex rt (canonical rt d)))
                       (Js.toLowerCase (hashHex d))) as [He | Hne];
    [| rewrite (post_mismatch rt clock body db d Hd Hne);
       split; [reflexivity | discriminate]].
  rewrite (post_match rt clock body db d Hd He). cbv zeta. unfold Db.insert. cbn [Db.id].
  rewrite Hex. split; [reflexivity | discriminate].
Qed.

Lemma taken_id_stores_nothing_witness :
  In (randomUUID Sample.clock)
     (map Db.id (db_after (post_observations Sample.runtime Sample.clock
                             Sample.honest_body [])))
  /\ db_after (post_observations Sample.runtime Sample.clock Sample.capitals_body
                 (db_after (post_observations Sample.runtime Sample.clock
                              Sample.honest_body [])))
     = db_after (post_observations Sample.runtime Sample.clock Sample.honest_body []).
Proof.
  assert (Hin : In (randomUUID Sample.clock)
                   (map Db.id (db_after (post_observations Sample.runtime Sample.clock
                                           Sample.honest_body [])))).
  { left. reflexivity. }
  split; [exact Hin |].
  exact (proj1 (taken_id_stores_nothing Sample.runtime Sample.clock Sample.capitals_body
                  _ Hin)).
Defined.

End StoreExtras.


(** ** The schema: what it lets through *)

Section SchemaExtras.
Import Backend Service.

Lemma get_skip (key k : string) (v : Js.value) (before after : list (string * Js.value)) :
  key <> k -> Js.get key (before ++ (k, v) :: after) = Js.get key (before ++ after).
Proof.
  intros Hne. induction before as [| [k' v'] before IH]; cbn [app Js.get].
  - destruct (String.eqb_spec k key) as [-> | _]; [contradiction | reflexivity].
  - rewrite IH. reflexivity.
Qed.

Lemma FeatureSchema_in_range (v : Js.value) (f : Feature) :
  FeatureSchema v = Some f -> confidence_in_range f.
Proof.
  unfold FeatureSchema. destruct v as [ | | | | | | props]; try discriminate.
  destruct (z_string _) as [t |]; cbn [mbind option_bind]; [| discriminate].
  destruct (z_optional _ (Js.get "confidence" props)) as [c |] eqn:Hc;
    cbn [mbind option_bind]; [| discriminate].
  destruct (z_optional _ (Js.get "bbox" props)) as [b |]; cbn [mbind option_bind];
    [| discriminate].
  intros [= <-]. unfold confidence_in_range. cbn [confidence].
  destruct c as [n |]; [| exact I].
  unfold z_optional in Hc.
  destruct (Js.get "confidence" props) as [ | | | m | | | ] eqn:Hg; try discriminate Hc.
  cbn [fmap option_fmap option_map] in Hc.
  unfold z_max, z_min in Hc.
  destruct (z_number (Js.Num m)) as [m' |] eqn:Hm; cbn [mbind option_bind] in Hc;
    [| discriminate Hc].
  assert (Hnan : m <> Js.NaN) by (intros ->; discriminate Hm).
  apply z_number_inv in Hm. injection Hm as <-.
  destruct (Js.lt m zero) eqn:Hlo; cbn [mbind option_bind option_map] in Hc;
    [discriminate Hc |].
  destruct (Js.lt one m) eqn:Hhi; cbn [option_map] in Hc; [discriminate Hc |].
  injection Hc as <-.
  unfold zero, one in Hlo, Hhi.
  destruct m as [ | [|] | q]; cbn [Js.lt] in Hlo, Hhi; try discriminate;
    [now contradiction Hnan |].
  apply negb_false_iff, Qle_bool_iff in Hlo. apply negb_false_iff, Qle_bool_iff in Hhi.
  split; assumption.
Qed.

Lemma features_in_range (items : list Js.value) (fs : list Feature) :
  mapM FeatureSchema items = Some fs -> Forall confidence_in_range fs.
Proof.
  intros H. apply mapM_Some_1 in H.
  induction H as [| x f items fs Hx _ IH]; [constructor |].
  constructor; [apply (FeatureSchema_in_range x f Hx) | exact IH].
Qed.

Lemma regex_inv (s : string) :
  hashHex_regex s = true ->
  exists digits : string,
    s = String "0" (String "x" digits)
    /\ String.length digits = 64
    /\ forallb is_hex_char (list_ascii_of_string digits) = true.
Proof.
  unfold hashHex_regex.
  destruct s as [| a s]; [discriminate |].
  destruct a as [[] [] [] [] [] [] [] []]; try discriminate.
  destruct s as [| b digits]; [discriminate |].
  destruct b as [[] [] [] [] [] [] [] []]; try discriminate.
  intros H. apply andb_true_iff in H as [Hlen Hhex]. apply Nat.eqb_eq in Hlen.
  exists digits. repeat split; assumption.
Qed.

Lemma regex_length (s : string) : hashHex_regex s = true -> String.length s = 66.
Proof.
  intros H. apply regex_inv in H as (digits & -> & Hlen & _).
  cbn [String.length]. now rewrite Hlen.
Qed.

(** X9: what has passed the schema is in range.  The coordinates of an
    accepted payload are numbers other than [NaN], every confidence it
    carries is a finite number from 0 to 1, and its digest string has 66
    characters of the pattern [0x] and 64 hexadecimal digits. *)
Theorem accepted_payload_is_in_range (body : Js.value) (d : Observation) :
  ObservationSchema body = Some d ->
  lat d <> Js.NaN /\ lng d <> Js.NaN
  /\ Forall confidence_in_range (features d)
  /\ hashHex_regex (hashHex d) = true
  /\ String.length (hashHex d) = 66.
Proof.
  intros Hd.
  destruct (ObservationSchema_accepts body d Hd)
    as (props & -> & Hlat & Hlng & _ & Hfs & _ & Hre).
  unfold ObservationSchema in Hd. rewrite Hlat, Hlng in Hd.
  split; [intros Hn; rewrite Hn in Hd; discriminate Hd |].
  split; [intros Hn; rewrite Hn in Hd; destruct (lat d); discriminate Hd |].
  split; [| split; [exact Hre | apply regex_length, Hre]].
  unfold z_default, z_array in Hfs.
  destruct (Js.get "features" props) as [ | | | | | items | ]; try discriminate Hfs.
  - injection Hfs as <-. constructor.
  - apply (features_in_range items), Hfs.
Qed.

Lemma accepted_payload_is_in_range_witness :
  exists d : Observation,
    ObservationSchema Sample.honest_body = Some d
    /\ Forall confidence_in_range (features d)
    /\ String.length (hashHex d) = 66.
Proof.
  destruct (ObservationSchema Sample.honest_body) as [d |] eqn:Hd;
    [| vm_compute in Hd; discriminate Hd].
  exists d. split; [reflexivity |].
  destruct (accepted_payload_is_in_range Sample.honest_body d Hd) as (_ & _ & Hc & _ & Hl).
  split; [exact Hc | exact Hl].
Defined.

(** X10: members the schema does not name are ignored.  A member of the
    payload under any other name than [lat], [lng], [timestamp], [features]
    and [hashHex], wherever it stands and whatever it holds, changes neither
    what the schema yields nor what the request stores and hashes. *)
Theorem unnamed_members_are_ignored (rt : Js.Runtime) (clock : Clock) (db : Db.table)
    (before after : list (string * Js.value)) (k : string) (v : Js.value) :
  ~ In k payload_keys ->
  ObservationSchema (Js.Obj (before ++ (k, v) :: after))
  = ObservationSchema (Js.Obj (before ++ after))
  /\ db_after (post_observations rt clock (Js.Obj (before ++ (k, v) :: after)) db)
     = db_after (post_observations rt clock (Js.Obj (before ++ after)) db)
  /\ hashed (post_observations rt clock (Js.Obj (before ++ (k, v) :: after)) db)
     = hashed (post_observations rt clock (Js.Obj (before ++ after)) db).
Proof.
  intros Hk. unfold payload_keys in Hk. cbn [In] in Hk.
  assert (Hschema : ObservationSchema (Js.Obj (before ++ (k, v) :: after))
                    = ObservationSchema (Js.Obj (before ++ after))).
  { unfold ObservationSchema. rewrite !get_skip by (intros <-; tauto). reflexivity. }
  split; [exact Hschema |].
  unfold post_observations. rewrite Hschema. clear Hschema.
  destruct (ObservationSchema (Js.Obj (before ++ after))) as [d |]; [| split; reflexivity].
  cbv zeta. destruct (negb _); [split; reflexivity |].
  destruct (Db.insert _ db); split; reflexivity.
Qed.

Lemma unnamed_members_are_ignored_witness :
  db_after (post_observations Sample.runtime Sample.clock
              (Js.Obj ([("lat", Js.Num Sample.example_lat)]
                       ++ ("note", Js.Str "deep")
                          :: [("lng", Js.Num Sample.example_lng);
                              ("timestamp", Js.Str Sample.example_timestamp);
                              ("features", Js.Arr [Sample.pothole]);
                              ("hashHex", Js.Str Sample.example_digest)])) [])
  = db_after (post_observations Sample.runtime Sample.clock
                (Js.Obj ([("lat", Js.Num Sample.example_lat)]
                         ++ [("lng", Js.Num Sample.example_lng);
                             ("timestamp", Js.Str Sample.example_timestamp);
                             ("features", Js.Arr [Sample.pothole]);
                             ("hashHex", Js.Str Sample.example_digest)])) []).
Proof.
  apply (unnamed_members_are_ignored Sample.runtime Sample.clock []
           [("lat", Js.Num Sample.example_lat)] _ "note" (Js.Str "deep")).
  unfold payload_keys. cbn [In]. intros [H | [H | [H | [H | [H | []]]]]]; discriminate H.
Defined.

Lemma get_app_last (key k : string) (v : Js.value) (props : list (string * Js.value)) :
  key <> k -> Js.get key (props ++ [(k, v)]) = Js.get key props.
Proof.
  intros Hne. rewrite <- (app_nil_r props) at 2. apply get_skip, Hne.
Qed.

(** X11: a payload without [features] is a payload with no features.  When
    the payload has no [features] member, the schema yields what it yields
    for the same payload with [features: []], so that the digest it must
    carry is the one of the canonical form with an empty feature list. *)
Theorem missing_features_mean_none (props : list (string * Js.value)) :
  Js.get "features" props = Js.Undefined ->
  ObservationSchema (Js.Obj props)
  = ObservationSchema (Js.Obj (props ++ [("features", Js.Arr [])]))
  /\ forall d : Observation, ObservationSchema (Js.Obj props) = Some d -> features d = [].
Proof.
  intros Hmiss.
  assert (Hdef : z_default [] (z_array FeatureSchema)
                   (Js.get "features" (props ++ [("features", Js.Arr [])])) = Some []).
  { clear - Hmiss. induction props as [| [k v] props IH]; [reflexivity |].
    cbn [app Js.get] in *. destruct (String.eqb k "features");
      [rewrite Hmiss; reflexivity | apply IH, Hmiss]. }
  split.
  - unfold ObservationSchema. rewrite Hdef, Hmiss.
    rewrite !get_app_last by discriminate. reflexivity.
  - intros d Hd. apply ObservationSchema_accepts in Hd
      as (props' & [= <-] & _ & _ & _ & Hfs & _).
    rewrite Hmiss in Hfs. injection Hfs as <-. reflexivity.
Qed.

Lemma missing_features_mean_none_witness :
  ObservationSchema
    (Js.Obj [("lat", Js.Num Sample.example_lat); ("lng", Js.Num Sample.example_lng);
             ("timestamp", Js.Str Sample.example_timestamp);
             ("hashHex", Js.Str Sample.all_zero_digest)])
  = ObservationSchema
      (Js.Obj ([("lat", Js.Num Sample.example_lat); ("lng", Js.Num Sample.example_lng);
                ("timestamp", Js.Str Sample.example_timestamp);
                ("hashHex", Js.Str Sample.all_zero_digest)]
               ++ [("features", Js.Arr [])])).
Proof.
  exact (proj1 (missing_features_mean_none
                  [("lat", Js.Num Sample.example_lat); ("lng", Js.Num Sample.example_lng);
                   ("timestamp", Js.Str Sample.example_timestamp);
                   ("hashHex", Js.Str Sample.all_zero_digest)] eq_refl)).
Defined.

End SchemaExtras.


(** ** The read path: what a listing holds *)

Section ListingFacts.
Import Backend Service.
Variable rt : Js.Runtime.

Lemma place_In (x r : Db.Observation) (l : list Db.Observation) :
  In x (Db.place r l) <-> x = r \/ In x l.
Proof.
  induction l as [| y l IH]; cbn [Db.place In]; [intuition congruence |].
  destruct (String.leb _ _); cbn [In]; [rewrite IH |]; intuition congruence.
Qed.

Lemma order_by_In (x : Db.Observation) (t : Db.table) :
  In x (Db.order_by_created_at_desc t) <-> In x t.
Proof.
  induction t as [| r t IH]; cbn [Db.order_by_created_at_desc In]; [tauto |].
  rewrite place_In, IH. intuition congruence.
Qed.

(** The statement run with an integer bound [k] that is not negative returns
    the first [k] ordered rows. *)
Lemma listing_of_bound (query_limit : option string) (k : Z) (db : Db.table) :
  Db.as_integer (Js.Math_min (requested_limit rt query_limit) (Js.Finite 200)) = Some k ->
  (0 <= k)%Z ->
  readable rt db ->
  exists out : list Js.value,
    observations_of (get_observations rt query_limit db) = Some out
    /\ Forall2 (fun r o => exists fs, Js.JSON_parse rt (Db.features_json r) = Some fs
                                      /\ o = listed fs r)
         (take (Z.to_nat k) (Db.order_by_created_at_desc db)) out.
Proof.
  intros Hk Hnn Hread. unfold get_observations, Db.select_recent. cbv zeta.
  rewrite Hk. cbn [mbind option_bind]. unfold Db.limit.
  destruct (Z.ltb_spec k 0); [lia |].
  destruct (mapM _ _) as [out |] eqn:Hm.
  - exists out. split; [reflexivity |].
    apply mapM_Some_1 in Hm. eapply Forall2_impl; [exact Hm |].
    intros r o Hro. cbn beta in Hro.
    destruct (Js.JSON_parse rt (Db.features_json r)) as [fs |]; [| discriminate Hro].
    injection Hro as <-. exists fs. split; reflexivity.
  - exfalso. apply mapM_None_1, Exists_exists in Hm as (r & Hr & Hnone).
    apply elem_of_take in Hr as (i & Hr & _). apply list_elem_of_lookup_2 in Hr.
    unfold readable in Hread. rewrite Forall_forall in Hread.
    assert (Hin : r ∈ db) by (apply list_elem_of_In, order_by_In, list_elem_of_In, Hr).
    specialize (Hread r Hin).
    destruct (Js.JSON_parse rt (Db.features_json r)); [discriminate Hnone | now apply Hread].
Qed.

Lemma bound_of_integer (query_limit : option string) (k : Z) :
  requested_limit rt query_limit = Js.Finite (inject_Z k) ->
  (0 <= k)%Z ->
  Db.as_integer (Js.Math_min (requested_limit rt query_limit) (Js.Finite 200))
  = Some (Z.min k 200).
Proof.
  intros -> Hk. cbn [Js.Math_min].
  destruct (Qle_bool (inject_Z k) 200) eqn:Hle.
  - apply Qle_bool_iff in Hle. unfold Qle in Hle. cbn in Hle.
    unfold Db.as_integer. cbn [Qnum Qden inject_Z].
    rewrite Z.mod_1_r, Z.div_1_r. cbn [Z.eqb andb].
    destruct (Z.ltb_spec (- 2 ^ 63) k); [| lia].
    destruct (Z.ltb_spec k (2 ^ 63)); [| lia].
    cbn [andb]. rewrite Z.min_l by lia. reflexivity.
  - assert (Hgt : (200 < k)%Z).
    { destruct (Z.le_gt_cases k 200) as [Hc | Hc]; [| lia].
      exfalso. assert (Qle_bool (inject_Z k) 200 = true); [| congruence].
      apply Qle_bool_iff. unfold Qle. cbn. lia. }
    rewrite Z.min_r by lia. reflexivity.
Qed.

Lemma listing_count (query_limit : option string) (k : Z) (db : Db.table) :
  requested_limit rt query_limit = Js.Finite (inject_Z k) ->
  (0 <= k)%Z ->
  readable rt db ->
  exists out : list Js.value,
    observations_of (get_observations rt query_limit db) = Some out
    /\ length out = Nat.min (Z.to_nat k) (Nat.min 200 (length db)).
Proof.
  intros Hreq Hk Hread.
  destruct (listing_of_bound query_limit (Z.min k 200) db) as (out & Hout & Hrows);
    [apply bound_of_integer; assumption | lia | exact Hread |].
  exists out. split; [exact Hout |].
  apply Forall2_length in Hrows. rewrite <- Hrows, length_take, order_by_length. lia.
Qed.

Lemma place_Permutation (r : Db.Observation) (l : list Db.Observation) :
  Permutation (Db.place r l) (r :: l).
Proof.
  induction l as [| x l IH]; cbn [Db.place]; [reflexivity |].
  destruct (String.leb _ _); [| reflexivity].
  rewrite IH. apply perm_swap.
Qed.

Lemma order_by_Permutation (t : Db.table) :
  Permutation (Db.order_by_created_at_desc t) t.
Proof.
  induction t as [| r t IH]; cbn [Db.order_by_created_at_desc]; [reflexivity |].
  rewrite place_Permutation, IH. reflexivity.
Qed.

(** Which rows a listing holds: the table splits into the rows shown and
    the rows left out; the rows shown run from the most recent to the oldest,
    and none of the rows left out was created after one that is shown. *)
Lemma listing_most_recent (query_limit : option string) (k : Z) (db : Db.table) :
  requested_limit rt query_limit = Js.Finite (inject_Z k) ->
  (0 <= k)%Z ->
  readable rt db ->
  exists (out : list Js.value) (shown hidden : list Db.Observation),
    observations_of (get_observations rt query_limit db) = Some out
    /\ Forall2 (listing_of rt) shown out
    /\ Permutation db (shown ++ hidden)
    /\ length shown = Nat.min (Z.to_nat k) (Nat.min 200 (length db))
    /\ StronglySorted Db.not_older shown
    /\ forall s h : Db.Observation, In s shown -> In h hidden -> Db.not_older s h.
Proof.
  intros Hreq Hk Hread.
  destruct (listing_of_bound query_limit (Z.min k 200) db) as (out & Hout & Hrows);
    [apply bound_of_integer; assumption | lia | exact Hread |].
  pose proof (order_by_sorted db) as Hsorted.
  rewrite <- (take_drop (Z.to_nat (Z.min k 200)) (Db.order_by_created_at_desc db))
    in Hsorted.
  exists out, (take (Z.to_nat (Z.min k 200)) (Db.order_by_created_at_desc db)),
    (drop (Z.to_nat (Z.min k 200)) (Db.order_by_created_at_desc db)).
  split; [exact Hout |]. split; [exact Hrows |].
  split; [rewrite take_drop; symmetry; apply order_by_Permutation |].
  split; [rewrite length_take, order_by_length; lia |].
  split; [eapply StronglySorted_app_1_l; exact Hsorted |].
  intros x h Hx Hh.
  eapply StronglySorted_app_1_elem_of; [exact Hsorted | |]; apply list_elem_of_In; assumption.
Qed.

End ListingFacts.

Section ListingExtras.
Import Backend Service.

(** X12: how many observations a listing holds.  When the [limit] of the
    query reads as an integer [k] that is not negative and the rows are
    readable, the listing holds exactly the least of [k], 200 and the number
    of rows; in particular [limit=0] lists nothing. *)
Theorem listing_holds_exactly (rt : Js.Runtime) (query : string) (k : Z) (db : Db.table) :
  query <> EmptyString ->
  Js.StringToNumber rt query = Js.Finite (inject_Z k) ->
  (0 <= k)%Z ->
  readable rt db ->
  exists out : list Js.value,
    observations_of (get_observations rt (Some query) db) = Some out
    /\ length out = Nat.min (Z.to_nat k) (Nat.min 200 (length db)).
Proof.
  intros Hq Hnum Hk Hread. apply listing_count; [| exact Hk | exact Hread].
  unfold requested_limit. apply String.eqb_neq in Hq. rewrite Hq. exact Hnum.
Qed.

Lemma sample_rows_readable (n : nat) : readable Sample.runtime (Sample.rows n).
Proof.
  apply Forall_forall. intros r Hr. apply list_elem_of_In, in_map_iff in Hr.
  destruct Hr as (i & <- & _). discriminate.
Qed.

Lemma listing_holds_exactly_witness :
  exists out : list Js.value,
    observations_of (get_observations Sample.runtime (Some "0") (Sample.rows 3)) = Some out
    /\ length out = Nat.min (Z.to_nat 0) (Nat.min 200 (length (Sample.rows 3))).
Proof.
  apply (listing_holds_exactly Sample.runtime "0" 0 (Sample.rows 3)).
  - discriminate.
  - reflexivity.
  - lia.
  - apply sample_rows_readable.
Defined.

(** X13: the default of a listing.  A query without [limit], or with an
    empty one, lists the 50 most recent observations, or all of them when
    there are fewer: the rows of the table split into those shown, each
    listed as its columns with its features read back, and those left out;
    50 rows are shown, or all when there are fewer; they run from the most
    recent to the oldest; and no row left out was created after a row that is
    shown.  Both forms of the query give the same response. *)
Theorem listing_defaults_to_fifty (rt : Js.Runtime) (db : Db.table) :
  readable rt db ->
  (exists (out : list Js.value) (shown hidden : list Db.Observation),
     observations_of (get_observations rt None db) = Some out
     /\ Forall2 (listing_of rt) shown out
     /\ Permutation db (shown ++ hidden)
     /\ length shown = Nat.min 50 (length db)
     /\ StronglySorted Db.not_older shown
     /\ forall s h : Db.Observation, In s shown -> In h hidden -> Db.not_older s h)
  /\ get_observations rt (Some EmptyString) db = get_observations rt None db.
Proof.
  intros Hread. split; [| reflexivity].
  destruct (listing_most_recent rt None 50 db)
    as (out & shown & hidden & Hout & Hrows & Hperm & Hlen & Hsorted & Hnewer);
    [reflexivity | lia | exact Hread |].
  exists out, shown, hidden. repeat split; try assumption.
  rewrite Hlen. change (Z.to_nat 50) with 50%nat. lia.
Qed.

(** Of 60 rows created one after the other, the listing shows the last 50,
    and its first observation is the row created last. *)
Lemma listing_defaults_to_fifty_witness :
  (exists (out : list Js.value) (shown hidden : list Db.Observation),
     observations_of (get_observations Sample.runtime None (Sample.rows 60)) = Some out
     /\ Forall2 (listing_of Sample.runtime) shown out
     /\ Permutation (Sample.rows 60) (shown ++ hidden)
     /\ length shown = Nat.min 50 (length (Sample.rows 60))
     /\ StronglySorted Db.not_older shown
     /\ forall s h : Db.Observation, In s shown -> In h hidden -> Db.not_older s h)
  /\ option_map (fun out => map createdAt_of (take 1 out))
       (observations_of (get_observations Sample.runtime None (Sample.rows 60)))
     = Some [Db.created_at (Sample.row 59)].
Proof.
  split; [| vm_compute; reflexivity].
  exact (proj1 (listing_defaults_to_fifty Sample.runtime (Sample.rows 60)
                  (sample_rows_readable 60))).
Defined.

(** X14: a [limit] that is no number.  When the [limit] of the query reads
    as [NaN], or as a fraction below the cap, the statement throws and the
    request ends in an uncaught exception: nothing is listed, and the default
    of 50 does not step in. *)
Theorem listing_throws_without_integer (rt : Js.Runtime) (query : string) (db : Db.table) :
  query <> EmptyString ->
  Js.StringToNumber rt query = Js.NaN
  \/ (exists q : Q,
        Js.StringToNumber rt query = Js.Finite q
        /\ Qle_bool q 200 = true
        /\ (Qnum q mod Z.pos (Qden q) <> 0)%Z) ->
  get_observations rt (Some query) db = uncaught_exception.
Proof.
  intros Hq Hbad. unfold get_observations, requested_limit, Db.select_recent. cbv zeta.
  apply String.eqb_neq in Hq. rewrite Hq.
  destruct Hbad as [-> | (q & -> & Hle & Hfrac)]; [reflexivity |].
  cbn [Js.Math_min]. rewrite Hle. unfold Db.as_integer.
  apply Z.eqb_neq in Hfrac. rewrite Hfrac. reflexivity.
Qed.

Lemma listing_throws_without_integer_witness :
  get_observations Sample.runtime (Some "abc") (Sample.rows 3) = uncaught_exception.
Proof.
  apply (listing_throws_without_integer Sample.runtime "abc" (Sample.rows 3)).
  - discriminate.
  - left. reflexivity.
Defined.

End ListingExtras.

Section ListingRoundTrip.
Import Backend Service.
Variable rt : Js.Runtime.

Lemma Forall2_In_l {A B} (R : A -> B -> Prop) (l : list A) (k : list B) (x : A) :
  Forall2 R l k -> In x l -> exists y, In y k /\ R x y.
Proof.
  induction 1 as [| a b l k Hab _ IH]; cbn [In]; [contradiction |].
  intros [<- | Hx]; [exists b; auto |].
  destruct (IH Hx) as (y & Hy & Hxy). exists y. auto.
Qed.

Lemma Forall2_In_r {A B} (R : A -> B -> Prop) (l : list A) (k : list B) (y : B) :
  Forall2 R l k -> In y k -> exists x, In x l /\ R x y.
Proof.
  induction 1 as [| a b l k Hab _ IH]; cbn [In]; [contradiction |].
  intros [<- | Hy]; [exists a; auto |].
  destruct (IH Hy) as (x & Hx & Hxy). exists x. auto.
Qed.

Lemma order_by_newest_last (db : Db.table) (row : Db.Observation) :
  Forall (fun r => String.ltb (Db.created_at r) (Db.created_at row) = true) db ->
  Db.order_by_created_at_desc (db ++ [row]) = row :: Db.order_by_created_at_desc db.
Proof.
  induction 1 as [| r db Hr _ IH]; [reflexivity |].
  cbn [app Db.order_by_created_at_desc]. rewrite IH. cbn [Db.place].
  assert (Hle : String.leb (Db.created_at r) (Db.created_at row) = true).
  { unfold String.ltb in Hr. unfold String.leb.
    destruct (String.compare _ _); [reflexivity | reflexivity | discriminate Hr]. }
  rewrite Hle. reflexivity.
Qed.

(** What a success of the write path has done. *)
Lemma post_success_inv (clock : Clock) (body : Js.value) (db : Db.table) (answer : Js.value) :
  response (post_observations rt clock body db) = json 200 answer ->
  exists d : Observation,
    ObservationSchema body = Some d
    /\ db_after (post_observations rt clock body db) = db ++ [row_of rt clock d].
Proof.
  intros Hres. destruct (ObservationSchema body) as [d |] eqn:Hd;
    [| rewrite (post_invalid rt clock body db Hd) in Hres; discriminate Hres].
  destruct (string_dec (Js.toLowerCase (sha256Hex rt (canonical rt d)))
                       (Js.toLowerCase (hashHex d))) as [He | Hne];
    [| rewrite (post_mismatch rt clock body db d Hd Hne) in Hres; discriminate Hres].
  exists d. split; [reflexivity |].
  rewrite (post_match rt clock body db d Hd He) in Hres |- *. cbv zeta in Hres |- *.
  unfold Db.insert in Hres |- *.
  destruct (existsb _ db); [discriminate Hres | reflexivity].
Qed.

End ListingRoundTrip.

Section RoundTripExtras.
Import Backend Service.

(** X15: a listing shows the table and nothing else.  When the [limit] of
    the query reads as an integer, not negative, that the number of rows does
    not exceed,
    and there are at most 200 readable rows, the observations listed are
    exactly the rows of the table, each as its own columns with its features
    read back. *)
Theorem listing_shows_the_table (rt : Js.Runtime) (query : string) (k : Z) (db : Db.table) :
  query <> EmptyString ->
  Js.StringToNumber rt query = Js.Finite (inject_Z k) ->
  (0 <= k)%Z ->
  length db <= Z.to_nat k ->
  length db <= 200 ->
  readable rt db ->
  exists out : list Js.value,
    observations_of (get_observations rt (Some query) db) = Some out
    /\ length out = length db
    /\ forall o : Js.value, In o out <-> exists r, In r db /\ listing_of rt r o.
Proof.
  intros Hq Hnum Hnn Hk Hcap Hread.
  assert (Hreq : requested_limit rt (Some query) = Js.Finite (inject_Z k)).
  { unfold requested_limit. apply String.eqb_neq in Hq. rewrite Hq. exact Hnum. }
  destruct (listing_of_bound rt (Some query) (Z.min k 200) db) as (out & Hout & Hrows);
    [apply bound_of_integer; assumption | lia | exact Hread |].
  rewrite take_ge in Hrows by (rewrite order_by_length; lia).
  exists out. split; [exact Hout |].
  split; [apply Forall2_length in Hrows; rewrite <- Hrows; apply order_by_length |].
  intros o. split.
  - intros Ho. destruct (Forall2_In_r _ _ _ o Hrows Ho) as (r & Hr & Hro).
    exists r. split; [apply order_by_In, Hr | exact Hro].
  - intros (r & Hr & fs & Hfs & ->).
    apply order_by_In in Hr.
    destruct (Forall2_In_l _ _ _ r Hrows Hr) as (o & Ho & fs' & Hfs' & ->).
    rewrite Hfs in Hfs'. injection Hfs' as <-. exact Ho.
Qed.

Lemma listing_shows_the_table_witness :
  exists out : list Js.value,
    observations_of (get_observations Sample.runtime (Some "25") (Sample.rows 3)) = Some out
    /\ length out = length (Sample.rows 3)
    /\ forall o : Js.value,
         In o out <-> exists r, In r (Sample.rows 3) /\ listing_of Sample.runtime r o.
Proof.
  apply (listing_shows_the_table Sample.runtime "25" 25 (Sample.rows 3)).
  - discriminate.
  - reflexivity.
  - lia.
  - cbn. lia.
  - cbn. lia.
  - apply sample_rows_readable.
Defined.

(** X16: what was just stored comes first.  After a submission that was
    answered with status 200 at a time later than the creation time of every
    row there was, a listing of at least one observation starts with the new
    one: the id and creation time of the answer, the coordinates and digest
    of the payload, its timestamp as the table holds it (the payload's, with
    U+FFFD in the place of every lone surrogate), and its features as read
    back from what was stored. *)
Theorem new_observation_comes_first (rt : Js.Runtime) (clock : Clock) (body : Js.value)
    (db : Db.table) (answer : Js.value) (query : string) (k : Z) :
  response (post_observations rt clock body db) = json 200 answer ->
  Forall (fun r => String.ltb (Db.created_at r) (now_ISO clock) = true) db ->
  query <> EmptyString ->
  Js.StringToNumber rt query = Js.Finite (inject_Z k) ->
  (1 <= k)%Z ->
  readable rt (db_after (post_observations rt clock body db)) ->
  exists (d : Observation) (fs : Js.value) (rest : list Js.value),
    ObservationSchema body = Some d
    /\ Js.JSON_parse rt (Js.stringify_array rt (map feature_object (features d))) = Some fs
    /\ observations_of
         (get_observations rt (Some query) (db_after (post_observations rt clock body db)))
       = Some (Js.Obj [("id", Js.Str (randomUUID clock));
                       ("createdAt", Js.Str (now_ISO clock));
                       ("lat", Js.Num (lat d)); ("lng", Js.Num (lng d));
                       ("timestamp", Js.Str (Js.toWellFormed (timestamp d)));
                       ("features", fs);
                       ("hashHex", Js.Str (hashHex d))] :: rest).
Proof.
  intros Hres Hnew Hq Hnum Hk Hread.
  destruct (post_success_inv rt clock body db answer Hres) as (d & Hd & Hdb).
  rewrite Hdb in Hread |- *.
  assert (Hreq : requested_limit rt (Some query) = Js.Finite (inject_Z k)).
  { unfold requested_limit. apply String.eqb_neq in Hq. rewrite Hq. exact Hnum. }
  destruct (listing_of_bound rt (Some query) (Z.min k 200) (db ++ [row_of rt clock d]))
    as (out & Hout & Hrows); [apply bound_of_integer; [assumption | lia] | lia | exact Hread |].
  rewrite order_by_newest_last in Hrows by exact Hnew.
  destruct (Z.to_nat (Z.min k 200)) as [| n] eqn:Hn; [lia |].
  cbn [take] in Hrows. inversion Hrows as [| r o rows outs (fs & Hfs & ->) Hrest]; subst.
  exists d, fs, outs. split; [exact Hd |]. split; [exact Hfs | exact Hout].
Qed.

Lemma new_observation_comes_first_witness :
  exists (d : Observation) (fs : Js.value) (rest : list Js.value),
    ObservationSchema Sample.lone_surrogate_body = Some d
    /\ Js.JSON_parse Sample.runtime
         (Js.stringify_array Sample.runtime (map feature_object (features d))) = Some fs
    /\ observations_of
         (get_observations Sample.runtime (Some "25")
            (db_after
               (post_observations Sample.runtime Sample.clock Sample.lone_surrogate_body
                  (Sample.rows 3))))
       = Some (Js.Obj [("id", Js.Str (randomUUID Sample.clock));
                       ("createdAt", Js.Str (now_ISO Sample.clock));
                       ("lat", Js.Num (lat d)); ("lng", Js.Num (lng d));
                       ("timestamp", Js.Str (Js.toWellFormed (timestamp d)));
                       ("features", fs);
                       ("hashHex", Js.Str (hashHex d))] :: rest).
Proof.
  eapply (new_observation_comes_first Sample.runtime Sample.clock _ (Sample.rows 3) _
            "25" 25).
  - vm_compute. reflexivity.
  - repeat constructor.
  - discriminate.
  - reflexivity.
  - lia.
  - unfold readable. vm_compute. repeat constructor; discriminate.
Defined.

End RoundTripExtras.


(** ** The client's digest text *)

Section DigestText.

Lemma digest_hex_cons (b : byte) (bs : list byte) :
  Backend.digest_hex (b :: bs) = Backend.hex_of_byte b +:+ Backend.digest_hex bs.
Proof. unfold Backend.digest_hex. cbn [map]. apply concat_empty_cons. Qed.

Lemma decode_hex_of_byte (b : byte) (rest : string) :
  Hex.decode (Backend.hex_of_byte b +:+ rest) = (bs ← Hex.decode rest; Some (b :: bs)).
Proof. destruct b; reflexivity. Qed.

(** Reading back the text of a digest gives the digest. *)
Lemma decode_digest_hex (bs : list byte) : Hex.decode (Backend.digest_hex bs) = Some bs.
Proof.
  induction bs as [| b bs IH]; [reflexivity |].
  rewrite digest_hex_cons, decode_hex_of_byte, IH. reflexivity.
Qed.

Lemma digest_hex_length (bs : list byte) :
  String.length (Backend.digest_hex bs) = 2 * length bs.
Proof.
  induction bs as [| b bs IH]; [reflexivity |].
  rewrite digest_hex_cons. unfold Backend.hex_of_byte. rewrite !append_cons.
  cbn [String.length length]. change (EmptyString +:+ ?s) with s. rewrite IH. lia.
Qed.

Lemma digest_hex_digits (bs : list byte) :
  forallb Backend.is_hex_char (list_ascii_of_string (Backend.digest_hex bs)) = true.
Proof.
  induction bs as [| b bs IH]; [reflexivity |].
  rewrite digest_hex_cons. unfold Backend.hex_of_byte. rewrite !append_cons.
  change (EmptyString +:+ ?s) with s. cbn [list_ascii_of_string forallb]. rewrite IH.
  destruct b; reflexivity.
Qed.

End DigestText.

Section DigestTextExtras.

(** X17: the digest the client shows and sends is well formed.  Whenever the
    hash primitive yields 32 bytes, the text [sha256Hex] makes of them passes
    the pattern the server asks of [hashHex], and it is in lowercase
    already. *)
Theorem client_digest_is_well_formed (rt : Js.Runtime) (text : string) :
  length (Js.SHA256 rt text) = 32 ->
  Backend.hashHex_regex (Frontend.sha256Hex rt text) = true
  /\ Js.toLowerCase (Frontend.sha256Hex rt text) = Frontend.sha256Hex rt text.
Proof.
  intros Hlen. rewrite sha256Hex_client_server. split; [| apply sha256Hex_lowercase].
  unfold Backend.sha256Hex.
  change ("0x" +:+ ?s) with (String "0" (String "x" s)). cbn [Backend.hashHex_regex].
  rewrite digest_hex_length, Hlen, digest_hex_digits. reflexivity.
Qed.

Lemma client_digest_is_well_formed_witness :
  Backend.hashHex_regex (Frontend.sha256Hex Sample.runtime Sample.example_canonical) = true.
Proof.
  exact (proj1 (client_digest_is_well_formed Sample.runtime Sample.example_canonical
                  eq_refl)).
Defined.

(** X18: the digest text says which digest it is.  Two texts give the same
    [sha256Hex] string only when the hash primitive gives them the same
    bytes: padding every byte to two digits leaves no two byte sequences
    with one spelling. *)
Theorem digest_text_is_unambiguous (rt : Js.Runtime) (text text' : string) :
  Frontend.sha256Hex rt text = Frontend.sha256Hex rt text' ->
  Js.SHA256 rt text = Js.SHA256 rt text'.
Proof.
  rewrite !sha256Hex_client_server. unfold Backend.sha256Hex. intros H.
  apply String.app_inj in H.
  assert (Hd : Hex.decode (Backend.digest_hex (Js.SHA256 rt text))
               = Hex.decode (Backend.digest_hex (Js.SHA256 rt text'))) by now rewrite H.
  rewrite !decode_digest_hex in Hd. now injection Hd.
Qed.

Lemma digest_text_is_unambiguous_witness :
  Js.SHA256 Sample.runtime "potholes" = Js.SHA256 Sample.runtime "potholes".
Proof.
  apply (digest_text_is_unambiguous Sample.runtime "potholes" "potholes"). reflexivity.
Defined.

End DigestTextExtras.


(** ** The form and the server together *)

Section FormAndServer.
Import Backend.
Variable rt : Js.Runtime.

(** The canonical form the server derives from what the client has sent is
    the client's, for features in the order of the schema. *)
Lemma server_rebuilds_client_canonical (lat lng : Js.number) (timestamp : string)
    (features : list Js.value) (claimed : string) (d : Observation) :
  ObservationSchema (Frontend.request_body lat lng timestamp features claimed) = Some d ->
  forallb Frontend.schema_ordered features = true ->
  canonical rt d = Frontend.canonical rt lat lng timestamp features /\ hashHex d = claimed.
Proof.
  intros Hd Hord.
  apply ObservationSchema_accepts in Hd
    as (props & Hbody & Hlat & Hlng & Hts & Hfs & Hh & _).
  unfold Frontend.request_body, Frontend.submission in Hbody.
  cbn [Js.json_image] in Hbody. rewrite !omap_cons in Hbody. cbv beta iota in Hbody.
  injection Hbody as <-.
  cbn [Js.get String.eqb Ascii.eqb Bool.eqb] in Hlat, Hlng, Hts, Hfs, Hh.
  rewrite server_canonical_unfold.
  destruct lat as [ | ? | ql]; try discriminate Hlat.
  destruct lng as [ | ? | qg]; try discriminate Hlng.
  cbn [Js.json_image] in Hlat, Hlng, Hts, Hfs, Hh.
  injection Hlat as <-. injection Hlng as <-. injection Hts as <-. injection Hh as <-.
  split; [| reflexivity].
  apply canonical_features_ext.
  apply rebuilt_features_serialise_alike; [exact Hfs | exact Hord].
Qed.

End FormAndServer.

Section FormAndServerExtras.
Import Backend.

(** X19: the form never earns a hash mismatch.  Whatever the user has done
    to the feature list and whatever the coordinates and the timestamp are,
    a submission that carries the digest the client derived from its
    canonical form is not answered with the mismatch error: either the
    schema turns the payload down, or the digests agree. *)
Theorem form_submission_is_never_a_mismatch (rt : Js.Runtime) (clock : Clock)
    (db : Db.table) (edits : list Frontend.Edit) (lat lng : Js.number) (timestamp : string) :
  let features := Frontend.features_after edits in
  let digest := Frontend.sha256Hex rt (Frontend.canonical rt lat lng timestamp features) in
  let body := Frontend.request_body lat lng timestamp features digest in
  response (post_observations rt clock body db)
  <> json 400 (Js.Obj [("ok", Js.Bool false); ("error", Js.Str hash_mismatch_message)])
  /\ (ObservationSchema body = None
      \/ exists d : Observation,
           ObservationSchema body = Some d
           /\ sha256Hex rt (canonical rt d) = hashHex d).
Proof.
  cbv zeta.
  set (features := Frontend.features_after edits).
  set (digest := Frontend.sha256Hex rt (Frontend.canonical rt lat lng timestamp features)).
  set (body := Frontend.request_body lat lng timestamp features digest).
  destruct (ObservationSchema body) as [d |] eqn:Hd.
  - destruct (server_rebuilds_client_canonical rt lat lng timestamp features digest d Hd
                (features_after_schema_ordered edits)) as [Hc Hh].
    assert (He : sha256Hex rt (canonical rt d) = hashHex d).
    { rewrite Hc, Hh. symmetry. apply sha256Hex_client_server. }
    split; [| right; exists d; split; [reflexivity | exact He]].
    rewrite (post_match rt clock body db d Hd (f_equal Js.toLowerCase He)). cbv zeta.
    destruct (Db.insert _ db); discriminate.
  - split; [| left; reflexivity].
    rewrite (post_invalid rt clock body db Hd). discriminate.
Qed.

End FormAndServerExtras.


(** ** The feature list of the form *)

Section FeatureList.
Import Frontend.

Lemma updateFeature_from_lookup (idx i j : nat) (patch : list (string * Js.value))
    (prev : list Js.value) :
  updateFeature_from idx i patch prev !! j
  = (fun f => if Nat.eqb (idx + j) i then spread f patch else f) <$> prev !! j.
Proof.
  revert idx j. induction prev as [| f prev IH]; intros idx j; [reflexivity |].
  cbn [updateFeature_from]. destruct j as [| j]; cbn [lookup list_lookup].
  - rewrite Nat.add_0_r. reflexivity.
  - change (updateFeature_from (S idx) i patch prev !! j
            = (fun f => if Nat.eqb (idx + S j) i then spread f patch else f) <$> prev !! j).
    rewrite IH. rewrite Nat.add_succ_r. reflexivity.
Qed.

Lemma updateFeature_from_length (idx i : nat) (patch : list (string * Js.value))
    (prev : list Js.value) :
  length (updateFeature_from idx i patch prev) = length prev.
Proof.
  revert idx. induction prev as [| f prev IH]; intros idx; cbn [updateFeature_from length];
    [reflexivity | now rewrite IH].
Qed.

Lemma removeFeature_from_spec (idx i : nat) (prev : list Js.value) :
  removeFeature_from idx i prev
  = if Nat.leb idx i then take (i - idx) prev ++ drop (S (i - idx)) prev else prev.
Proof.
  revert idx. induction prev as [| f prev IH]; intros idx; cbn [removeFeature_from].
  - rewrite take_nil, drop_nil. now destruct (Nat.leb idx i).
  - rewrite IH. destruct (Nat.eqb_spec idx i) as [-> | Hne].
    + rewrite Nat.leb_refl, Nat.sub_diag.
      destruct (Nat.leb_spec (S i) i); [lia | reflexivity].
    + destruct (Nat.leb_spec idx i) as [Hle | Hgt].
      * destruct (Nat.leb_spec (S idx) i); [| lia].
        replace (i - idx) with (S (i - S idx)) by lia. reflexivity.
      * destruct (Nat.leb_spec (S idx) i); [lia | reflexivity].
Qed.

End FeatureList.

Section FeatureListExtras.
Import Frontend.

(** X20: editing a feature touches that feature only.  [updateFeature]
    keeps the length of the list, replaces the feature at the given index by
    its spread with the patch and leaves every other feature as it is; an
    index beyond the list changes nothing. *)
Theorem updateFeature_touches_one (i : nat) (patch : list (string * Js.value))
    (prev : list Js.value) :
  length (updateFeature i patch prev) = length prev
  /\ (forall j : nat,
        updateFeature i patch prev !! j
        = (fun f => if Nat.eqb j i then spread f patch else f) <$> prev !! j)
  /\ (length prev <= i -> updateFeature i patch prev = prev).
Proof.
  unfold updateFeature. split; [apply updateFeature_from_length |].
  split; [intros j; apply updateFeature_from_lookup |].
  intros Hout. apply list_eq. intros j. rewrite updateFeature_from_lookup. cbn [Nat.add].
  destruct (prev !! j) as [f |] eqn:Hj; [| reflexivity].
  apply lookup_lt_Some in Hj. cbn [fmap option_fmap option_map].
  destruct (Nat.eqb_spec j i); [lia | reflexivity].
Qed.

Lemma updateFeature_touches_one_witness :
  updateFeature 5 [("type", Js.Str "bump")] initial_features = initial_features.
Proof.
  apply (proj2 (proj2 (updateFeature_touches_one 5 [("type", Js.Str "bump")]
                         initial_features))).
  cbn. lia.
Defined.

(** X21: removing a feature takes out the one at the given index.
    [removeFeature i] yields the features before index [i] followed by those
    after it; an index beyond the list changes nothing, and removing the
    feature that [addFeature] has just added gives the list back. *)
Theorem removeFeature_takes_one_out (i : nat) (prev : list Js.value) :
  removeFeature i prev = take i prev ++ drop (S i) prev
  /\ (length prev <= i -> removeFeature i prev = prev)
  /\ removeFeature (length prev) (addFeature prev) = prev.
Proof.
  assert (Hspec : forall k l, removeFeature k l = take k l ++ drop (S k) l).
  { intros k l. unfold removeFeature. rewrite removeFeature_from_spec.
    cbn [Nat.leb]. now rewrite Nat.sub_0_r. }
  split; [apply Hspec |]. split.
  - intros Hout. rewrite Hspec, take_ge, drop_ge by lia. apply app_nil_r.
  - rewrite Hspec. unfold addFeature.
    rewrite take_app_length, drop_ge by (rewrite length_app; cbn; lia). apply app_nil_r.
Qed.

Lemma removeFeature_takes_one_out_witness :
  removeFeature 7 initial_features = initial_features.
Proof.
  apply (proj1 (proj2 (removeFeature_takes_one_out 7 initial_features))). cbn. lia.
Defined.

End FeatureListExtras.


(** ** What the user is shown *)

Section Shown.
Import Backend Client.
Variable rt : Js.Runtime.

Lemma post_success_answer (clock : Clock) (body : Js.value) (db : Db.table)
    (answer : Js.value) :
  response (post_observations rt clock body db) = json 200 answer ->
  exists claimed : string,
    answer = Js.Obj [("ok", Js.Bool true); ("id", Js.Str (randomUUID clock));
                     ("createdAt", Js.Str (now_ISO clock)); ("hashHex", Js.Str claimed)].
Proof.
  intros Hres. destruct (ObservationSchema body) as [d |] eqn:Hd;
    [| rewrite (post_invalid rt clock body db Hd) in Hres; discriminate Hres].
  destruct (string_dec (Js.toLowerCase (sha256Hex rt (canonical rt d)))
                       (Js.toLowerCase (hashHex d))) as [He | Hne];
    [| rewrite (post_mismatch rt clock body db d Hd Hne) in Hres; discriminate Hres].
  rewrite (post_match rt clock body db d Hd He) in Hres. cbv zeta in Hres.
  destruct (Db.insert _ db); [| discriminate Hres].
  injection Hres as <-. exists (hashHex d). reflexivity.
Qed.

Lemma refresh_of_listing (query_limit : option string) (db : Db.table)
    (out : list Js.value) (observations : Js.value) :
  observations_of (get_observations rt query_limit db) = Some out ->
  exists shown : list Js.value,
    refresh (get_observations rt query_limit db) observations = inr (Js.Arr shown)
    /\ length shown = length out.
Proof.
  unfold get_observations, Db.select_recent. cbv zeta.
  destruct (Db.as_integer _) as [k |]; cbn [mbind option_bind]; [| discriminate].
  destruct (mapM _ _) as [out' |]; [| discriminate].
  cbn. intros [= <-]. eexists. split; [reflexivity |]. apply length_map.
Qed.

End Shown.

Section ShownExtras.
Import Backend Client.

(** X22: why a payload was turned down is not shown.  When the server
    rejects the shape of a submission, whatever the issues it reports, the
    status line reads "Submit failed: [object Object]": the client makes an
    [Error] of the object of flattened issues, which has no [message]. *)
Theorem rejected_shape_shows_no_detail (rt : Js.Runtime) (reads_as : Thrown -> string)
    (clock : Clock) (body : Js.value) (db : Db.table) (refresh_answer : Response)
    (observations : Js.value) :
  ObservationSchema body = None ->
  submitObservation rt reads_as (response (post_observations rt clock body db))
    refresh_answer observations
  = mkShown "Submit failed: [object Object]" observations.
Proof.
  intros Hd. rewrite (post_invalid rt clock body db Hd). reflexivity.
Qed.

Lemma rejected_shape_shows_no_detail_witness :
  submitObservation Sample.runtime (fun _ => "Unexpected token")
    (response (post_observations Sample.runtime Sample.clock
                 (Js.Obj [("lat", Js.Str "north")]) []))
    uncaught_exception (Js.Arr [])
  = mkShown "Submit failed: [object Object]" (Js.Arr []).
Proof.
  apply (rejected_shape_shows_no_detail Sample.runtime (fun _ => "Unexpected token")
           Sample.clock (Js.Obj [("lat", Js.Str "north")]) [] uncaught_exception (Js.Arr [])).
  reflexivity.
Defined.

(** X23: the status line after a submission.  A mismatch shows the server's
    message after "Submit failed: ".  A success shows "Saved. Observation
    id: " and the id of the answer, and the list becomes what the refresh
    has fetched; but when that refresh ends in an exception, the status line
    reads as a failed submission although the row has been stored. *)
Theorem status_line_after_submit (rt : Js.Runtime) (reads_as : Thrown -> string)
    (clock : Clock) (body : Js.value) (db : Db.table) (refresh_answer : Response)
    (observations : Js.value) :
  (forall d : Observation,
     ObservationSchema body = Some d ->
     Js.toLowerCase (sha256Hex rt (canonical rt d)) <> Js.toLowerCase (hashHex d) ->
     submitObservation rt reads_as (response (post_observations rt clock body db))
       refresh_answer observations
     = mkShown "Submit failed: Hash mismatch (server recomputed a different value)."
         observations)
  /\ (forall answer : Js.value,
        response (post_observations rt clock body db) = json 200 answer ->
        db_after (post_observations rt clock body db) <> db
        /\ submitObservation rt reads_as (response (post_observations rt clock body db))
             refresh_answer observations
           = match refresh refresh_answer observations with
             | inr listed =>
                 mkShown ("Saved. Observation id: " +:+ randomUUID clock) listed
             | inl thrown => mkShown ("Submit failed: " +:+ reads_as thrown) observations
             end).
Proof.
  split.
  - intros d Hd Hne. rewrite (post_mismatch rt clock body db d Hd Hne). reflexivity.
  - intros answer Hres. split.
    + destruct (post_success_inv rt clock body db answer Hres) as (d & _ & ->).
      intros Heq. apply (f_equal (@length _)) in Heq. rewrite length_app in Heq.
      cbn [length] in Heq. lia.
    + rewrite Hres. destruct (post_success_answer rt clock body db answer Hres) as (h & ->).
      unfold submitObservation.
      destruct (refresh refresh_answer observations); reflexivity.
Qed.

Lemma status_line_after_submit_witness :
  submitObservation Sample.runtime (fun _ => "Unexpected token")
    (response (post_observations Sample.runtime Sample.clock Sample.honest_body []))
    uncaught_exception (Js.Arr [])
  = mkShown "Submit failed: Unexpected token" (Js.Arr [])
  /\ db_after (post_observations Sample.runtime Sample.clock Sample.honest_body []) <> [].
Proof.
  assert (Hres : response (post_observations Sample.runtime Sample.clock
                             Sample.honest_body [])
                 = json 200
                     (Js.Obj [("ok", Js.Bool true); ("id", Js.Str (randomUUID Sample.clock));
                              ("createdAt", Js.Str (now_ISO Sample.clock));
                              ("hashHex", Js.Str Sample.example_digest)])).
  { vm_compute. reflexivity. }
  destruct (proj2 (status_line_after_submit Sample.runtime (fun _ => "Unexpected token")
                     Sample.clock Sample.honest_body [] uncaught_exception (Js.Arr []))
              _ Hres) as [Hdb Hshown].
  split; [exact Hshown | exact Hdb].
Defined.

(** X24: what a refresh shows.  When the table is readable and [Number]
    reads the client's [limit=25] as 25, [refresh] replaces the list by the
    observations of the listing, of which there are 25 or, when the table
    holds fewer rows, as many as there are rows; when the request ends in an
    uncaught exception instead, [refresh] ends in one too and the list stays
    as it was. *)
Theorem refresh_shows_at_most_25 (rt : Js.Runtime) (db : Db.table) (observations : Js.value) :
  Js.StringToNumber rt "25" = Js.Finite (inject_Z 25) ->
  Service.readable rt db ->
  (exists shown : list Js.value,
     refresh (get_observations rt refresh_limit db) observations = inr (Js.Arr shown)
     /\ length shown = Nat.min 25 (length db))
  /\ refresh uncaught_exception observations = inl body_is_not_json.
Proof.
  intros Hnum Hread. split; [| reflexivity].
  destruct (listing_count rt refresh_limit 25 db) as (out & Hout & Hlen);
    [exact Hnum | lia | exact Hread |].
  destruct (refresh_of_listing rt refresh_limit db out observations Hout)
    as (shown & Hshown & Hl).
  exists shown. split; [exact Hshown |]. rewrite Hl, Hlen.
  change (Z.to_nat 25) with 25%nat. lia.
Qed.

Lemma refresh_shows_at_most_25_witness :
  exists shown : list Js.value,
    refresh (get_observations Sample.runtime refresh_limit (Sample.rows 30)) (Js.Arr [])
    = inr (Js.Arr shown)
    /\ length shown = Nat.min 25 (length (Sample.rows 30)).
Proof.
  exact (proj1 (refresh_shows_at_most_25 Sample.runtime (Sample.rows 30) (Js.Arr [])
                  eq_refl (sample_rows_readable 30))).
Defined.

End ShownExtras.


(** ** The canonical form tells timestamps and features apart *)

Section Quoting.

Lemma append_assoc (s t u : string) : (s +:+ t) +:+ u = s +:+ (t +:+ u).
Proof. induction s as [| c s IH]; [reflexivity | now rewrite !append_cons, IH]. Qed.

Lemma read_quote_char (c : ascii) (rest : string) :
  Unquote.read_char (Js.quote_char c +:+ rest) = Some (String c EmptyString, rest).
Proof. destruct c as [[] [] [] [] [] [] [] []]; reflexivity. Qed.

Lemma read_surrogate_escape (c c2 c3 : ascii) (rest : string) :
  Js.lone_surrogate c c2 c3 = true ->
  Unquote.read_char (Js.UnicodeEscape (Js.surrogate_code_point c2 c3) +:+ rest)
  = Some (String c (String c2 (String c3 EmptyString)), rest).
Proof.
  unfold Js.lone_surrogate. rewrite !andb_true_iff.
  intros ((((Hc & Hlo2) & Hhi2) & Hlo3) & Hhi3).
  apply N.eqb_eq in Hc. rewrite <- (ascii_N_embedding c), Hc. clear Hc c.
  destruct c2 as [[] [] [] [] [] [] [] []];
    try discriminate Hlo2; try discriminate Hhi2; clear Hlo2 Hhi2;
    destruct c3 as [[] [] [] [] [] [] [] []];
    try discriminate Hlo3; try discriminate Hhi3; reflexivity.
Qed.

Lemma quote_chars_cons (c : ascii) (rest : string) :
  Js.quote_chars (String c rest)
  = match rest with
    | String c2 (String c3 rest') =>
        if Js.lone_surrogate c c2 c3
        then Js.UnicodeEscape (Js.surrogate_code_point c2 c3) +:+ Js.quote_chars rest'
        else Js.quote_char c +:+ Js.quote_chars rest
    | _ => Js.quote_char c +:+ Js.quote_chars rest
    end.
Proof. reflexivity. Qed.

(** The quoted form of a text that is not empty starts with the quoted form
    of its first character, which reads back as that character. *)
Lemma quote_chars_step (s : string) :
  s <> EmptyString ->
  exists u r : string,
    s = u +:+ r
    /\ String.length r < String.length s
    /\ forall k : string,
         Unquote.read_char (Js.quote_chars s +:+ k) = Some (u, Js.quote_chars r +:+ k).
Proof.
  destruct s as [| c rest]; [congruence |]. intros _.
  assert (Hone : exists u r : string,
             String c rest = u +:+ r
             /\ String.length r < String.length (String c rest)
             /\ forall k : string,
                  Unquote.read_char ((Js.quote_char c +:+ Js.quote_chars rest) +:+ k)
                  = Some (u, Js.quote_chars r +:+ k)).
  { exists (String c EmptyString), rest. split; [reflexivity |]. split; [cbn; lia |].
    intros k. rewrite append_assoc. apply read_quote_char. }
  rewrite quote_chars_cons.
  destruct rest as [| c2 [| c3 rest']]; [exact Hone | exact Hone |].
  destruct (Js.lone_surrogate c c2 c3) eqn:Hs; [| exact Hone].
  exists (String c (String c2 (String c3 EmptyString))), rest'.
  split; [reflexivity |]. split; [cbn; lia |].
  intros k. rewrite append_assoc. apply read_surrogate_escape, Hs.
Qed.

(** A quoted text ends at the first quotation mark that stands for itself:
    what follows the closing mark cannot be taken for part of the text. *)
Lemma quote_chars_delimited (s s' rest rest' : string) :
  Js.quote_chars s +:+ String Js.dquote rest = Js.quote_chars s' +:+ String Js.dquote rest' ->
  s = s' /\ rest = rest'.
Proof.
  remember (String.length s) as n eqn:Hn.
  assert (Hle : String.length s <= n) by lia. clear Hn.
  revert s s' Hle. induction n as [| n IH]; intros s s' Hle H.
  - destruct s as [| c s]; [| cbn in Hle; lia].
    destruct s' as [| c' s']; [injection H as <-; split; reflexivity |].
    destruct (quote_chars_step (String c' s')) as (u & r & _ & _ & Hread); [discriminate |].
    apply (f_equal Unquote.read_char) in H. rewrite Hread in H. discriminate H.
  - destruct s as [| c s].
    + destruct s' as [| c' s']; [injection H as <-; split; reflexivity |].
      destruct (quote_chars_step (String c' s')) as (u & r & _ & _ & Hread); [discriminate |].
      apply (f_equal Unquote.read_char) in H. rewrite Hread in H. discriminate H.
    + destruct (quote_chars_step (String c s)) as (u & r & Hs & Hlen & Hread);
        [discriminate |].
      destruct s' as [| c' s'].
      * apply (f_equal Unquote.read_char) in H. rewrite Hread in H. discriminate H.
      * destruct (quote_chars_step (String c' s')) as (u' & r' & Hs' & _ & Hread');
          [discriminate |].
        pose proof (f_equal Unquote.read_char H) as Hr.
        rewrite Hread, Hread' in Hr. injection Hr as <- Hr.
        destruct (IH r r') as [<- <-]; [lia | exact Hr |].
        split; [congruence | reflexivity].
Qed.

Lemma QuoteJSONString_delimited (s s' rest rest' : string) :
  Js.QuoteJSONString s +:+ rest = Js.QuoteJSONString s' +:+ rest' -> s = s' /\ rest = rest'.
Proof.
  unfold Js.QuoteJSONString. rewrite !append_cons, !append_assoc, !append_cons.
  change (EmptyString +:+ ?x) with x. intros H. injection H as H.
  apply quote_chars_delimited, H.
Qed.

Lemma append_last_inj (s s' : string) (c : ascii) :
  s +:+ String c EmptyString = s' +:+ String c EmptyString -> s = s'.
Proof.
  revert s'. induction s as [| a s IH]; intros [| a' s'] H.
  - reflexivity.
  - rewrite append_cons in H. injection H as _ H. destruct s'; discriminate H.
  - rewrite append_cons in H. injection H as _ H. destruct s; discriminate H.
  - rewrite !append_cons in H. injection H as <- H. now rewrite (IH s' H).
Qed.

(** The canonical form, spelt out around the timestamp. *)
Lemma canonical_around_timestamp (rt : Js.Runtime) (lat lng : Js.number)
    (timestamp : string) (features : list Js.value) :
  Frontend.canonical rt lat lng timestamp features
  = ("{" +:+ Js.QuoteJSONString "lat" +:+ ":"
         +:+ default "null" (Js.SerializeJSONProperty rt (Js.Num lat))
         +:+ "," +:+ Js.QuoteJSONString "lng" +:+ ":"
         +:+ default "null" (Js.SerializeJSONProperty rt (Js.Num lng))
         +:+ "," +:+ Js.QuoteJSONString "timestamp" +:+ ":")
    +:+ (Js.QuoteJSONString timestamp
         +:+ ("," +:+ Js.QuoteJSONString "features" +:+ ":")
         +:+ (Js.stringify_array rt features +:+ "}")).
Proof.
  unfold Frontend.canonical, Js.stringify_object, Js.SerializeJSONObject, Js.stringify_array.
  destruct lat as [ | ? | ?], lng as [ | ? | ?];
    cbn [omap list_omap Js.SerializeJSONProperty fmap option_fmap option_map
         String.concat default from_option];
    rewrite !append_assoc; reflexivity.
Qed.

End Quoting.

Section QuotingExtras.

(** X25: a timestamp cannot pass for something else.  Two observations at
    the same coordinates with the same canonical form have the same
    timestamp and the same features text: whatever characters a timestamp
    holds, quotation marks and backslashes included, it cannot make up for a
    difference in the features, nor the reverse. *)
Theorem canonical_form_separates_timestamp (rt : Js.Runtime) (lat lng : Js.number)
    (timestamp timestamp' : string) (features features' : list Js.value) :
  Frontend.canonical rt lat lng timestamp features
  = Frontend.canonical rt lat lng timestamp' features' ->
  timestamp = timestamp'
  /\ Js.stringify_array rt features = Js.stringify_array rt features'.
Proof.
  rewrite !canonical_around_timestamp. intros H.
  apply String.app_inj in H.
  apply QuoteJSONString_delimited in H as [Hts H].
  split; [exact Hts |].
  apply String.app_inj in H. apply (append_last_inj _ _ "}"), H.
Qed.

Lemma canonical_form_separates_timestamp_witness :
  Sample.example_timestamp = Sample.example_timestamp
  /\ Js.stringify_array Sample.runtime [Sample.feature_a_undefined]
     = Js.stringify_array Sample.runtime [Sample.feature_a].
Proof.
  apply (canonical_form_separates_timestamp Sample.runtime Sample.example_lat
           Sample.example_lng). reflexivity.
Defined.

End QuotingExtras.
